(** * ndaValidator: the data-element search of [DataElementSearch]

    The file [src/unnamed/part_000] holds two versions of the
    [DataElementSearch] React component.  The first one (lines 1-624)
    defines [levenshteinDistance] and a token-based [calculateRelevance];
    the second one (lines 631-1295) defines [containsWord],
    [findElementsByPattern], a match-type based [calculateRelevance],
    [handlePartialSearch] and [handleSearch].  The two versions live in
    the modules [V1] and [V2] below.

    JavaScript strings are modelled as Stdlib [string]s (one [ascii] per
    UTF-16 code unit, which is exact for text in the 8-bit range). *)

From Stdlib Require Import List String Ascii Arith Lia ZArith QArith Bool.
From Stdlib Require Import Sorting.Sorted Sorting.Permutation Lqa.
Import ListNotations.
Open Scope string_scope.
Open Scope nat_scope.

(** ** JavaScript string primitives *)

(** [String.prototype.toLowerCase] on one code unit of the 8-bit range:
    ASCII capitals and the Latin-1 capitals (except the sign U+00D7).
    Strings are modelled as Latin-1 (one 8-bit code unit per character):
    on them [toLowerCase] maps each character to one character of the
    range, as here.  Characters above U+00FF (such as U+0130, whose lower
    case is two code units) are outside the model. *)
Definition lowerChar (c : ascii) : ascii :=
  let n := nat_of_ascii c in
  if ((65 <=? n) && (n <=? 90)) || ((192 <=? n) && (n <=? 222) && negb (n =? 215))
  then ascii_of_nat (n + 32) else c.

Fixpoint toLowerCase (s : string) : string :=
  match s with
  | EmptyString => EmptyString
  | String c s' => String (lowerChar c) (toLowerCase s')
  end.

(** [Canonicalize] of the [i] flag without the [u] flag (ECMAScript,
    RegExp semantics) on a Latin-1 code unit, as a code point: its
    [toUpperCase] when that is one code unit: [a-z] and the Latin-1
    small letters go to their capitals, the micro sign U+00B5 to U+039C,
    U+00FF to U+0178; U+00DF (upper case ["SS"]) and the rest are kept. *)
Definition canonicalize (c : ascii) : nat :=
  let n := nat_of_ascii c in
  if (97 <=? n) && (n <=? 122) then n - 32
  else if (224 <=? n) && (n <=? 254) && negb (n =? 247) then n - 32
  else if n =? 181 then 924
  else if n =? 255 then 376
  else n.

(** [s.split(sep)] for a one-character separator: empty fields are kept,
    and the empty string splits into [[""]]. *)
Fixpoint splitStr (sep : ascii) (s : string) : list string :=
  match s with
  | EmptyString => [EmptyString]
  | String c s' =>
      if Ascii.eqb c sep then EmptyString :: splitStr sep s'
      else match splitStr sep s' with
           | h :: t => String c h :: t
           | [] => [String c EmptyString]
           end
  end.

(** [s.startsWith(p)] *)
Definition startsWith (s p : string) : bool := String.prefix p s.

(** [s.includes(sub)] *)
Fixpoint includes (s sub : string) : bool :=
  String.prefix sub s ||
  match s with
  | EmptyString => false
  | String _ s' => includes s' sub
  end.

(** [s.endsWith(suffix)] *)
Definition endsWith (s suffix : string) : bool :=
  (String.length suffix <=? String.length s) &&
  String.eqb (substring (String.length s - String.length suffix)
                        (String.length suffix) s) suffix.

(** [s.slice(0, -1)] *)
Definition dropLast (s : string) : string :=
  substring 0 (String.length s - 1) s.

Definition isDigit (c : ascii) : bool :=
  let n := nat_of_ascii c in (48 <=? n) && (n <=? 57).

(** [/^\d+$/.test(s)] (no multiline flag: [$] is the end of input). *)
Definition allDigits (s : string) : bool :=
  (0 <? String.length s) && forallb isDigit (list_ascii_of_string s).

(** The white space removed by [String.prototype.trim] in the 8-bit range:
    TAB, LF, VT, FF, CR, SPACE and NO-BREAK SPACE. *)
Definition isJsSpace (c : ascii) : bool :=
  let n := nat_of_ascii c in
  ((9 <=? n) && (n <=? 13)) || (n =? 32) || (n =? 160).

Fixpoint trimStart (s : string) : string :=
  match s with
  | EmptyString => EmptyString
  | String c s' => if isJsSpace c then trimStart s' else s
  end.

Definition trim (s : string) : string :=
  string_of_list_ascii
    (rev (list_ascii_of_string
            (trimStart (string_of_list_ascii
                          (rev (list_ascii_of_string (trimStart s))))))).

(** A data element as returned by the data-dictionary service.  A missing
    [type] or [description] is the empty string: the code only reads them
    through [x || default]. *)
Record Element := mkElement {
  name : string;
  type : string;
  description : string
}.

Module V1.

(** ** [levenshteinDistance] (lines 79-96)

    The table [track] is filled row by row: row [j] belongs to the first
    [j] characters of [str2], column [i] to the first [i] characters of
    [str1].  [lev_fill] computes one row from the previous one. *)
Fixpoint lev_fill (s1 : list ascii) (c2 : ascii) (prev : list nat) (left : nat)
  : list nat :=
  match s1, prev with
  | c1 :: s1', diag :: ((up :: _) as prev') =>
      let indicator := if Ascii.eqb c1 c2 then 0 else 1 in
      let v := Nat.min (Nat.min (left + 1) (up + 1)) (diag + indicator) in
      v :: lev_fill s1' c2 prev' v
  | _, _ => []
  end.

(** Rows [j+1 ..] from row [j] ([prev]); [track[j][0] = j]. *)
Fixpoint lev_rows (s1 s2 : list ascii) (j : nat) (prev : list nat) : list nat :=
  match s2 with
  | [] => prev
  | c2 :: s2' => lev_rows s1 s2' (S j) (S j :: lev_fill s1 c2 prev (S j))
  end.

Definition levenshteinDistance (str1 str2 : string) : nat :=
  let l1 := list_ascii_of_string str1 in
  let l2 := list_ascii_of_string str2 in
  last (lev_rows l1 l2 0 (seq 0 (List.length l1 + 1))) 0.

(** ** [calculateRelevance] (lines 98-148), the token-based scorer.

    [bestPartDistance] starts at [Infinity], written [None]. *)
Definition minInf (best : option nat) (d : nat) : option nat :=
  match best with
  | None => Some d
  | Some b => Some (Nat.min b d)
  end.

Definition partScore (bestPartDistance : option nat) : Q :=
  match bestPartDistance with
  | Some 0 => 100%Q
  | Some d => if d <=? 2 then (50 / inject_Z (Z.of_nat d))%Q else 0%Q
  | None => 0%Q
  end.

Definition calculateRelevance (element : Element) (searchTerm : string) : Q :=
  let elementName := toLowerCase (name element) in
  let searchTermLower := toLowerCase searchTerm in
  let elementParts := splitStr "_" elementName in
  let searchParts := splitStr "_" searchTermLower in
  if String.eqb elementName searchTermLower then 1000%Q else
  let score :=
    fold_left
      (fun score searchPart =>
         let bestPartDistance :=
           fold_left
             (fun best elementPart =>
                minInf best (levenshteinDistance searchPart elementPart))
             elementParts None in
         (score + partScore bestPartDistance)%Q)
      searchParts 0%Q in
  let score :=
    if startsWith elementName (searchTermLower ++ "_") then (score + 500)%Q
    else score in
  let score :=
    if allDigits elementName || allDigits searchTermLower
    then (score * (1 # 10))%Q else score in
  if negb (includes elementName searchTermLower) then (score * (1 # 10))%Q
  else score.

(** The recurrence the table implements, as a function of the prefix
    lengths: [ed s1 s2 i j] is the entry [track[j][i]]. *)
Definition indicator (c1 c2 : ascii) : nat := if Ascii.eqb c1 c2 then 0 else 1.

Fixpoint ed (s1 s2 : list ascii) (i : nat) : nat -> nat :=
  match i with
  | 0 => fun j => j
  | S i' =>
      fix edj (j : nat) : nat :=
        match j with
        | 0 => S i'
        | S j' =>
            Nat.min (Nat.min (ed s1 s2 i' (S j') + 1) (edj j' + 1))
                    (ed s1 s2 i' j' + indicator (nth i' s1 "000"%char) (nth j' s2 "000"%char))
        end
  end.

End V1.

Module V2.

(** ** [containsWord] (lines 674-677)

    [new RegExp(`\\b${word}\\b`, "i").test(text)]: the word is put into
    the pattern as it is, without escaping.  The pattern is modelled for
    words whose characters are literal or the wild card [.]; a word with
    any other syntax character of JavaScript regular expressions is
    outside the modelled fragment ([None]). *)
Inductive Atom := WordBoundary | AnyChar | Lit (c : ascii).

Definition isRegexSyntax (c : ascii) : bool :=
  existsb (Ascii.eqb c)
    ["^"; "$"; "\"; "*"; "+"; "?"; "("; ")"; "["; "]"; "{"; "}"; "|"]%char.

Fixpoint compileWord (w : list ascii) : option (list Atom) :=
  match w with
  | [] => Some []
  | c :: w' =>
      if Ascii.eqb c "." then option_map (cons AnyChar) (compileWord w')
      else if isRegexSyntax c then None
      else option_map (cons (Lit c)) (compileWord w')
  end.

(** [\w] is [[A-Za-z0-9_]]. *)
Definition isWordChar (c : ascii) : bool :=
  let n := nat_of_ascii c in
  ((48 <=? n) && (n <=? 57)) || ((65 <=? n) && (n <=? 90)) ||
  ((97 <=? n) && (n <=? 122)) || (n =? 95).

Definition isLineTerminator (c : ascii) : bool :=
  let n := nat_of_ascii c in (n =? 10) || (n =? 13).

Definition wordAt (text : list ascii) (p : nat) : bool :=
  match nth_error text p with Some c => isWordChar c | None => false end.

(** [\b] at position [p]. *)
Definition boundaryAt (text : list ascii) (p : nat) : bool :=
  xorb (match p with 0 => false | S p' => wordAt text p' end) (wordAt text p).

(** Atoms have a fixed width, so matching at a position needs no
    backtracking.  With the [i] flag, literals are compared after case
    folding; on Latin-1 characters two of them have the same [lowerChar]
    exactly when they have the same [canonicalize] (lemma
    [lowerChar_canonicalize]), so this is the comparison of the [i]
    flag. *)
Fixpoint matchAt (atoms : list Atom) (text : list ascii) (p : nat) : bool :=
  match atoms with
  | [] => true
  | WordBoundary :: atoms' => boundaryAt text p && matchAt atoms' text p
  | AnyChar :: atoms' =>
      match nth_error text p with
      | Some c => negb (isLineTerminator c) && matchAt atoms' text (S p)
      | None => false
      end
  | Lit c :: atoms' =>
      match nth_error text p with
      | Some d => Ascii.eqb (lowerChar d) (lowerChar c) && matchAt atoms' text (S p)
      | None => false
      end
  end.

(** [regex.test(text)]: some start position matches. *)
Definition regexTest (atoms : list Atom) (text : string) : bool :=
  let t := list_ascii_of_string text in
  existsb (matchAt atoms t) (seq 0 (List.length t + 1)).

Definition containsWord (text word : string) : option bool :=
  option_map (fun atoms => regexTest (WordBoundary :: atoms ++ [WordBoundary]) text)
             (compileWord (list_ascii_of_string word)).

(** [containsWord] as a total boolean function, exact on the modelled
    fragment; used to run the search on concrete inputs. *)
Definition containsWordFragment (text word : string) : bool :=
  match containsWord text word with Some b => b | None => false end.

(** ** Match records and [calculateRelevance] (lines 849-868) *)

(** The [matchType] strings ["both"], ["name"] and ["description"]. *)
Inductive MatchType := Both | NameMatch | DescriptionMatch.

Record MatchRecord := mkMatchRecord {
  mr_name : string;
  mr_type : string;
  mr_description : string;
  mr_structure : string;
  mr_matchType : MatchType;
  mr_relevance : Z
}.

Definition calculateRelevance (element : Element) (searchTerm : string)
  (matchType : MatchType) : Z :=
  let score := match matchType with
               | Both => 100
               | NameMatch => 75
               | DescriptionMatch => 25
               end%Z in
  let score := if String.eqb (toLowerCase (name element)) searchTerm
               then (score + 50)%Z else score in
  let score := if startsWith (toLowerCase (name element)) searchTerm
               then (score + 25)%Z else score in
  let lengthDiff := Z.abs (Z.of_nat (String.length (name element))
                           - Z.of_nat (String.length searchTerm)) in
  (score - Z.min lengthDiff 10)%Z.

(** ** JavaScript [Map]s as association lists in insertion order:
    [set] on a present key replaces its value in place. *)
Fixpoint mapSet {V} (m : list (string * V)) (k : string) (v : V) : list (string * V) :=
  match m with
  | [] => [(k, v)]
  | (k', v') :: m' =>
      if String.eqb k k' then (k, v) :: m' else (k', v') :: mapSet m' k v
  end.

Fixpoint mapGet {V} (m : list (string * V)) (k : string) : option V :=
  match m with
  | [] => None
  | (k', v) :: m' => if String.eqb k k' then Some v else mapGet m' k
  end.

(** [Array.from(map.values())] *)
Definition mapValues {V} (m : list (string * V)) : list V := map snd m.

(** ** [Array.prototype.sort((a, b) => b.relevance - a.relevance)]

    The sort is stable (ECMAScript 2019): a record goes after every record
    of a greater or equal relevance that precedes it. *)
Fixpoint insertByRelevance (r : MatchRecord) (l : list MatchRecord) : list MatchRecord :=
  match l with
  | [] => [r]
  | y :: l' =>
      if (mr_relevance y <? mr_relevance r)%Z then r :: y :: l'
      else y :: insertByRelevance r l'
  end.

Definition sortByRelevance (l : list MatchRecord) : list MatchRecord :=
  fold_left (fun acc r => insertByRelevance r acc) l [].

(** The last record written for name [n]. *)
Definition lastWrite (n : string) (ws : list MatchRecord) : option MatchRecord :=
  fold_left (fun acc r => if String.eqb (mr_name r) n then Some r else acc) ws None.

(** ** Component state (lines 632-639, 665-670) *)
Record LoadingState := mkLoadingState {
  isLoading : bool;
  currentBatch : nat;
  totalBatches : nat;
  matchesFound : nat
}.

Record UIState := mkUIState {
  searchTerm : string;
  loading : bool;
  error : option string;
  element : option Element;
  matchingElements : list MatchRecord;
  isPartialSearch : bool;
  recentSearches : list string;
  loadingState : LoadingState
}.

Definition setLoading (b : bool) (s : UIState) : UIState :=
  mkUIState (searchTerm s) b (error s) (element s) (matchingElements s)
            (isPartialSearch s) (recentSearches s) (loadingState s).
Definition setError (e : option string) (s : UIState) : UIState :=
  mkUIState (searchTerm s) (loading s) e (element s) (matchingElements s)
            (isPartialSearch s) (recentSearches s) (loadingState s).
Definition setElement (e : option Element) (s : UIState) : UIState :=
  mkUIState (searchTerm s) (loading s) (error s) e (matchingElements s)
            (isPartialSearch s) (recentSearches s) (loadingState s).
Definition setMatchingElements (m : list MatchRecord) (s : UIState) : UIState :=
  mkUIState (searchTerm s) (loading s) (error s) (element s) m
            (isPartialSearch s) (recentSearches s) (loadingState s).
Definition setIsPartialSearch (b : bool) (s : UIState) : UIState :=
  mkUIState (searchTerm s) (loading s) (error s) (element s) (matchingElements s)
            b (recentSearches s) (loadingState s).
(** [setRecentSearches(prev => ...)] *)
Definition setRecentSearches (f : list string -> list string) (s : UIState) : UIState :=
  mkUIState (searchTerm s) (loading s) (error s) (element s) (matchingElements s)
            (isPartialSearch s) (f (recentSearches s)) (loadingState s).
(** [setLoadingState(prev => ...)] *)
Definition setLoadingState (f : LoadingState -> LoadingState) (s : UIState) : UIState :=
  mkUIState (searchTerm s) (loading s) (error s) (element s) (matchingElements s)
            (isPartialSearch s) (recentSearches s) (f (loadingState s)).

(** ** Requests to the data-dictionary service and their JSON bodies *)
Inductive Req :=
| GetDataElement (n : string)          (* GET .../dataelement/{n} *)
| SearchStructures (term : string)     (* GET .../v2/datastructure?searchTerm={term} *)
| StructuresByCategory (c : string)    (* GET .../datastructure?category={c} *)
| GetDataStructure (shortName : string). (* GET .../datastructure/{shortName} *)

(** A structure list is read through [.map(s => s.shortName)], a structure
    through [data.dataElements], which may be absent. *)
Definition body (r : Req) : Type :=
  match r with
  | GetDataElement _ => Element
  | SearchStructures _ | StructuresByCategory _ => list string
  | GetDataStructure _ => option (list Element)
  end.

(** [fetch] rejects ([NetError]), or resolves with a response that is not
    [ok], or is [ok] with a body whose [.json()] rejects ([inl]) or parses
    ([inr]). *)
Inductive Response (B : Type) :=
| NetError (msg : string)
| HttpNotOk
| HttpOk (json : string + B).
Arguments NetError {B} msg.
Arguments HttpNotOk {B}.
Arguments HttpOk {B} json.

Definition Req_eq_dec (x y : Req) : {x = y} + {x <> y}.
Proof. decide equality; apply string_dec. Defined.

(** The structure identifiers fetched, in order, in a list of requests. *)
Definition structureFetches (tr : list Req) : list string :=
  flat_map (fun r => match r with GetDataStructure n => [n] | _ => [] end) tr.

(** Async code between its [await]s: state updates, fetches and timers. *)
Inductive Prog (A : Type) : Type :=
| Ret (a : A)
| Update (f : UIState -> UIState) (k : Prog A)
| Fetch (r : Req) (k : Response (body r) -> Prog A)
| Sleep (ms : nat) (k : Prog A).
Arguments Ret {A} a.
Arguments Update {A} f k.
Arguments Fetch {A} r k.
Arguments Sleep {A} ms k.

Fixpoint bind {A B} (p : Prog A) (f : A -> Prog B) : Prog B :=
  match p with
  | Ret a => f a
  | Update g k => Update g (bind k f)
  | Fetch r k => Fetch r (fun x => bind (k x) f)
  | Sleep ms k => Sleep ms (bind k f)
  end.

Notation "x <- p ;; k" := (bind p (fun x => k))
  (at level 61, p at next level, right associativity).
Notation "' pat <- p ;; k" := (bind p (fun pat => k))
  (at level 61, pat pattern, p at next level, right associativity).

(** The service's answers, one per request. *)
Definition Oracle := forall r : Req, Response (body r).

(** Running a program to its end: final state, the requests issued in
    order, and the result. *)
Fixpoint exec {A} (o : Oracle) (p : Prog A) (s : UIState) : UIState * list Req * A :=
  match p with
  | Ret a => (s, [], a)
  | Update f k => exec o k (f s)
  | Fetch r k =>
      let '(s', tr, a) := exec o (k (o r)) s in (s', r :: tr, a)
  | Sleep _ k => exec o k s
  end.

Definition finalState {A} o (p : Prog A) s : UIState := fst (fst (exec o p s)).
Definition trace {A} o (p : Prog A) s : list Req := snd (fst (exec o p s)).
Definition result {A} o (p : Prog A) s : A := snd (exec o p s).

(** Running a program up to its first [await]: the state after the
    synchronous part, and the continuation that resumes once the awaited
    fetch or timer completes.  Another handler may run in between. *)
Definition runSlice {A} (o : Oracle) (p : Prog A) (s : UIState) : UIState * Prog A :=
  (fix go (p : Prog A) (s : UIState) : UIState * Prog A :=
     match p with
     | Ret a => (s, Ret a)
     | Update f k => go k (f s)
     | Fetch r k => (s, k (o r))
     | Sleep _ k => (s, k)
     end) p s.

(** ** [findElementsByPattern] (lines 679-846) *)

Definition Cache := list (string * list Element).
Definition Found := list (string * MatchRecord).

(** [[...new Set(xs)]]: first occurrences, in order. *)
Definition unique (xs : list string) : list string :=
  rev (fold_left (fun acc x => if existsb (String.eqb x) acc then acc else x :: acc)
                 xs []).

(** [for (i = 0; i < xs.length; i += size) batches.push(xs.slice(i, i + size))],
    with the length of [xs] as fuel. *)
Fixpoint chunks (fuel size : nat) (xs : list string) : list (list string) :=
  match fuel with
  | 0 => []
  | S fuel' =>
      match xs with
      | [] => []
      | _ => firstn size xs :: chunks fuel' size (skipn size xs)
      end
  end.

Definition batchSize : nat := 25.

Definition batchesOf (xs : list string) : list (list string) :=
  chunks (List.length xs) batchSize xs.

(** [Promise.all(responses.filter(res => res.ok).map(res => res.json()))]
    after [Promise.all] of the two fetches: [None] when one of them
    rejects. *)
Fixpoint jsonAll (rs : list (Response (list string))) : option (list (list string)) :=
  match rs with
  | [] => Some []
  | NetError _ :: _ => None
  | HttpNotOk :: rs' => jsonAll rs'
  | HttpOk (inl _) :: _ => None
  | HttpOk (inr l) :: rs' => option_map (cons l) (jsonAll rs')
  end.

(** The body of one [batch.map(async (shortName) => ...)] callback after
    its fetch: errors give [null]; the element list is cached when it has
    fewer than 1000 entries ([undefined < 1000] is false). *)
Definition handleStructureResponse (shortName : string)
  (r : Response (option (list Element))) (cache : Cache)
  : option (string * list Element) * Cache :=
  match r with
  | NetError _ | HttpNotOk | HttpOk (inl _) => (None, cache)
  | HttpOk (inr dataElements) =>
      let cache' := match dataElements with
                    | Some l => if List.length l <? 1000 then mapSet cache shortName l
                                else cache
                    | None => cache
                    end in
      (Some (shortName, match dataElements with Some l => l | None => [] end), cache')
  end.

(** One batch: every callback tests [structureCache.has] synchronously,
    against the cache as it is when the batch starts ([cache0]); the
    fetches then complete and update the cache.  [Promise.all] keeps the
    order of the batch. *)
Fixpoint fetchBatch (cache0 : Cache) (batch : list string) (cache : Cache)
  : Prog (list (option (string * list Element)) * Cache) :=
  match batch with
  | [] => Ret ([], cache)
  | shortName :: rest =>
      match mapGet cache0 shortName with
      | Some els =>
          '(rs, c) <- fetchBatch cache0 rest cache ;;
          Ret (Some (shortName, els) :: rs, c)
      | None =>
          Fetch (GetDataStructure shortName) (fun r =>
            let '(res, cache1) := handleStructureResponse shortName r cache in
            '(rs, c) <- fetchBatch cache0 rest cache1 ;;
            Ret (res :: rs, c))
      end
  end.

(** Every cached element list has fewer than 1000 entries. *)
Definition CacheSmall (cache : Cache) : Prop :=
  Forall (fun kv => List.length (snd kv) < 1000) cache.

(** [.filter(Boolean)] *)
Fixpoint filterSome {X} (l : list (option X)) : list X :=
  match l with
  | [] => []
  | Some x :: l' => x :: filterSome l'
  | None :: l' => filterSome l'
  end.

(** The singular/plural word set (lines 780-785). *)
Definition searchWords (searchTerm : string) : list string :=
  if endsWith searchTerm "s" then [searchTerm; dropLast searchTerm]
  else [searchTerm; searchTerm ++ "s"].

Section Search.

(** The boolean meaning of [containsWord text word]: every pattern that
    compiles denotes such a function ([containsWordFragment] is one).
    The search is defined, and its properties proved, for any of them.
    It is total: a word on which [new RegExp] throws (a query with
    regular expression syntax such as ["("]) is not modelled, and the
    statements about a whole search assume a query without such syntax
    ([Highlight.noRegexSpecial]) where that matters. *)
Variable containsWordB : string -> string -> bool.

(** The record [foundElements.set(element.name, {...})] stores for one
    element of structure [shortName], if it matches (lines 774-826). *)
Definition matchRecordOf (searchTerm shortName : string) (el : Element)
  : option MatchRecord :=
  let elementName := toLowerCase (name el) in
  let elementDesc := toLowerCase (description el) in
  let words := searchWords searchTerm in
  let nameMatch := existsb (containsWordB elementName) words in
  let descMatch := existsb (containsWordB elementDesc) words in
  if nameMatch || descMatch then
    let mt := if nameMatch && descMatch then Both
              else if nameMatch then NameMatch else DescriptionMatch in
    Some {| mr_name := name el;
            mr_type := if String.eqb (type el) "" then "Unknown" else type el;
            mr_description := if String.eqb (description el) ""
                              then "No description available" else description el;
            mr_structure := shortName;
            mr_matchType := mt;
            mr_relevance := calculateRelevance el searchTerm mt |}
  else None.

(** [batchResults.forEach(({shortName, elements}) => elements.forEach(...))] *)
Definition aggregate (searchTerm : string) (batchResults : list (string * list Element))
  (found : Found) : Found :=
  fold_left
    (fun found '(shortName, elements) =>
       fold_left
         (fun found el =>
            match matchRecordOf searchTerm shortName el with
            | Some r => mapSet found (name el) r
            | None => found
            end)
         elements found)
    batchResults found.

(** The batch loop (lines 731-834). *)
Fixpoint batchLoop (searchTerm : string) (batches : list (list string))
  (batchIndex total : nat) (cache : Cache) (found : Found) : Prog Found :=
  match batches with
  | [] => Ret found
  | batch :: rest =>
      Update (setLoadingState (fun prev =>
                mkLoadingState (isLoading prev) (batchIndex + 1)
                               (totalBatches prev) (List.length found)))
      ('(results, cache') <- fetchBatch cache batch cache ;;
       let found' := aggregate searchTerm (filterSome results) found in
       if batchIndex <? total - 1
       then Sleep 20 (batchLoop searchTerm rest (S batchIndex) total cache' found')
       else batchLoop searchTerm rest (S batchIndex) total cache' found')
  end.

Definition findElementsByPattern (term : string) : Prog (list MatchRecord) :=
  let searchTerm := toLowerCase term in
  Update (setLoadingState (fun _ => mkLoadingState true 0 0 0))
  (Fetch (SearchStructures searchTerm) (fun r1 =>
   Fetch (StructuresByCategory "cognitive_task") (fun r2 =>
   match jsonAll [r1; r2] with
   | None =>
       (* catch: the structure cache and the found elements are empty *)
       Update (setLoadingState (fun prev =>
                 mkLoadingState false (currentBatch prev) (totalBatches prev)
                                (matchesFound prev)))
       (Ret [])
   | Some structureArrays =>
       let uniqueStructures := unique (List.concat structureArrays) in
       let batches := batchesOf uniqueStructures in
       Update (setLoadingState (fun prev =>
                 mkLoadingState (isLoading prev) (currentBatch prev)
                                (List.length batches) (matchesFound prev)))
       (foundElements <- batchLoop searchTerm batches 0 (List.length batches) [] [] ;;
        Update (setLoadingState (fun prev =>
                  mkLoadingState false (currentBatch prev) (totalBatches prev)
                                 (matchesFound prev)))
        (Ret (sortByRelevance (mapValues foundElements))))
   end))).

(** The aggregation of one search over the structures retrieved, in
    retrieval order: what [findElementsByPattern] returns. *)
Definition scan (term : string) (elementsByStructure : list (string * list Element))
  : list MatchRecord :=
  sortByRelevance (mapValues (aggregate (toLowerCase term) elementsByStructure [])).

(** The records [foundElements.set] is called with during [scan], in
    order. *)
Definition writes (searchTerm : string) (elementsByStructure : list (string * list Element))
  : list MatchRecord :=
  flat_map (fun '(shortName, elements) =>
              flat_map (fun el => match matchRecordOf searchTerm shortName el with
                                  | Some r => [r]
                                  | None => []
                                  end) elements)
           elementsByStructure.

(** ** [handlePartialSearch] and [handleSearch] (lines 870-950)

    A handler closes over the state of the render that created it ([st]):
    it reads [searchTerm] and [recentSearches] from there, and its setters
    act on the current state. *)
Definition dq : string := String "034"%char EmptyString.

Definition noMatchMessage (q : string) : string :=
  "No data elements found containing " ++ dq ++ q ++ dq.

Definition finallyBlock : Prog unit := Update (setLoading false) (Ret tt).

Definition catchBlock (msg : string) : Prog unit :=
  Update (setError (Some ("Error searching for elements: " ++ msg))) finallyBlock.

(** [if (!recentSearches.includes(t)) setRecentSearches(prev => [t, ...prev].slice(0, 10))] *)
Definition recordRecent (snapshot : list string) (t : string) (k : Prog unit) : Prog unit :=
  if existsb (String.eqb t) snapshot then k
  else Update (setRecentSearches (fun prev => firstn 10 (t :: prev))) k.

Definition handlePartialSearch (st : UIState) : Prog unit :=
  let q := trim (searchTerm st) in
  if String.eqb q "" then Ret tt else
  Update (setLoading true) (Update (setError None) (Update (setIsPartialSearch true)
  (Update (setMatchingElements []) (Update (setElement None)
  (Fetch (GetDataElement q) (fun directResponse =>
   match directResponse with
   | NetError msg => catchBlock msg
   | HttpOk (inl msg) => catchBlock msg
   | HttpOk (inr data) =>
       Update (setElement (Some data)) (Update (setIsPartialSearch false)
       (recordRecent (recentSearches st) q
       (Update (setLoading false) finallyBlock)))
   | HttpNotOk =>
       ms <- findElementsByPattern q ;;
       match ms with
       | [] =>
           Update (setError (Some (noMatchMessage (searchTerm st))))
           (Update (setLoading false) finallyBlock)
       | m0 :: rest =>
           Update (setMatchingElements ms)
           (match rest with
            | [] =>
                Fetch (GetDataElement (mr_name m0)) (fun perfectMatch =>
                  match perfectMatch with
                  | HttpOk (inr data) =>
                      Update (setElement (Some data)) (Update (setIsPartialSearch false)
                      (recordRecent (recentSearches st) (mr_name m0) finallyBlock))
                  | _ => finallyBlock
                  end)
            | _ => finallyBlock
            end)
       end
   end)))))).

Definition handleSearch (st : UIState) : Prog unit :=
  if String.eqb (trim (searchTerm st)) "" then Ret tt
  else handlePartialSearch st.

End Search.

(** ** The other handlers of the second version *)

Definition setSearchTerm (t : string) (s : UIState) : UIState :=
  mkUIState t (loading s) (error s) (element s) (matchingElements s)
            (isPartialSearch s) (recentSearches s) (loadingState s).

(** [handleClear] (lines 958-964) *)
Definition handleClear : Prog unit :=
  Update (setSearchTerm "") (Update (setElement None) (Update (setError None)
  (Update (setMatchingElements []) (Update (setIsPartialSearch false) (Ret tt))))).

Section Handlers.

Variable containsWordB : string -> string -> bool.

(** [handleRecentSearch] (lines 966-970): [setSearchTerm(term)], then
    [setTimeout(() => handleSearch(), 0)].  The [handleSearch] called is
    the one of the render that created this handler, which reads that
    render's [searchTerm] ([st]). *)
Definition handleRecentSearch (st : UIState) (term : string) : Prog unit :=
  Update (setSearchTerm term) (Sleep 0 (handleSearch containsWordB st)).

End Handlers.

(** The [onClick] of a matching element (lines 1101-1135). *)
Definition selectMatch (st : UIState) (m : MatchRecord) : Prog unit :=
  Update (setSearchTerm (mr_name m)) (Update (setIsPartialSearch false)
  (Update (setMatchingElements [])
  (Fetch (GetDataElement (mr_name m)) (fun response =>
     match response with
     | HttpOk (inr data) =>
         Update (setElement (Some data)) (recordRecent (recentSearches st) (mr_name m) (Ret tt))
     | _ => Ret tt
     end)))).

(** ** Definitions used by the proofs *)

(** Every update of the program satisfies [P]. *)
Fixpoint updatesAll {A} (P : (UIState -> UIState) -> Prop) (p : Prog A) : Prop :=
  match p with
  | Ret _ => True
  | Update g k => P g /\ updatesAll P k
  | Fetch r k => forall x, updatesAll P (k x)
  | Sleep _ k => updatesAll P k
  end.

(** Everything but the progress record [loadingState]. *)
Definition core (s : UIState) :=
  (searchTerm s, loading s, error s, element s, matchingElements s,
   isPartialSearch s, recentSearches s).

Definition keepsCore (g : UIState -> UIState) : Prop := forall s, core (g s) = core s.

Definition relGe (a b : MatchRecord) : Prop := (mr_relevance b <= mr_relevance a)%Z.

Definition relEq (k : Z) (r : MatchRecord) : bool := Z.eqb (mr_relevance r) k.

Definition setRecord (f : Found) (r : MatchRecord) : Found := mapSet f (mr_name r) r.

(** The found-elements map after the writes [ws]: keys without
    duplicates, each key the name of its record, which is the last record
    written for that name, and exactly the names written. *)
Definition FoundInv (ws : list MatchRecord) (f : Found) : Prop :=
  NoDup (map fst f) /\
  (forall k v, In (k, v) f -> k = mr_name v /\ lastWrite k ws = Some v) /\
  (forall k, In k (map fst f) <-> In k (map mr_name ws)).

(** The search history as kept by [recordRecent]: no duplicates, at most
    10 entries. *)
Definition HistoryOk (h : list string) : Prop := NoDup h /\ List.length h <= 10.

(** The structure names a search for [q] goes through: the distinct names
    of the two initial searches, none when one of them fails. *)
Definition discoveredStructures (o : Oracle) (q : string) : list string :=
  match jsonAll [o (SearchStructures (toLowerCase q));
                 o (StructuresByCategory "cognitive_task")] with
  | Some arrs => unique (List.concat arrs)
  | None => []
  end.

Definition notCached (cache0 : Cache) (n : string) : bool :=
  match mapGet cache0 n with None => true | Some _ => false end.

(** ** Concrete runs *)

Definition el (n d : string) : Element := mkElement n "" d.

Definition stateWith (q : string) : UIState :=
  mkUIState q false None None [] false [] (mkLoadingState false 0 0 0).

(** Every request answers with a non-[ok] status. *)
Definition oracleNotOk : Oracle := fun r =>
  match r return Response (body r) with
  | GetDataElement _ => HttpNotOk
  | SearchStructures _ => HttpNotOk
  | StructuresByCategory _ => HttpNotOk
  | GetDataStructure _ => HttpNotOk
  end.

(** No element is named exactly like a query; the structure search for
    ["aaa"] returns structure ["S1"], whose elements mention ["aaa"]. *)
Definition oracleS1 : Oracle := fun r =>
  match r return Response (body r) with
  | GetDataElement _ => HttpNotOk
  | SearchStructures t => if String.eqb t "aaa" then HttpOk (inr ["S1"]) else HttpOk (inr [])
  | StructuresByCategory _ => HttpOk (inr [])
  | GetDataStructure _ =>
      HttpOk (inr (Some [el "aaa_x" "the aaa thing"; el "y" "aaa"]))
  end.

(** Two searches for ["aaa"], one after the other. *)
Definition twoRetrievals : Prog (list MatchRecord) :=
  _ <- findElementsByPattern containsWordFragment "aaa" ;;
  findElementsByPattern containsWordFragment "aaa".

(** Every element name is found by the exact lookup. *)
Definition oracleFound : Oracle := fun r =>
  match r return Response (body r) with
  | GetDataElement n => HttpOk (inr (el n "found"))
  | SearchStructures _ => HttpNotOk
  | StructuresByCategory _ => HttpNotOk
  | GetDataStructure _ => HttpNotOk
  end.

(** Every request is rejected. *)
Definition oracleDown : Oracle := fun r =>
  match r return Response (body r) with
  | GetDataElement _ => NetError "Failed to fetch"
  | SearchStructures _ => NetError "Failed to fetch"
  | StructuresByCategory _ => NetError "Failed to fetch"
  | GetDataStructure _ => NetError "Failed to fetch"
  end.

(** Only the element ["q1"] can be looked up; the one structure ["S2"]
    holds it, described by ["bbb"], and an element that does not mention
    ["bbb"]. *)
Definition oracleOne : Oracle := fun r =>
  match r return Response (body r) with
  | GetDataElement n => if String.eqb n "q1" then HttpOk (inr (el "q1" "bbb"))
                        else HttpNotOk
  | SearchStructures _ => HttpOk (inr ["S2"])
  | StructuresByCategory _ => HttpOk (inr [])
  | GetDataStructure _ => HttpOk (inr (Some [el "q1" "bbb"; el "zzz" "other"]))
  end.

End V2.

(** ** [highlightSearchTerm] (lines 50-77 and 641-661) *)

Module Highlight.
Import V2.

(** [s.replace(/[.*+?^${}()|[\]\\]/g, "\\$&")] ([escapeRegExp], lines
    45-47, and the [map] of line 56): a backslash goes before each of the
    characters [. * + ? ^ $ { } ( ) | [ ] \]. *)
Definition isEscaped (c : ascii) : bool := Ascii.eqb c "." || isRegexSyntax c.

Fixpoint escapeChars (l : list ascii) : list ascii :=
  match l with
  | [] => []
  | c :: l' => if isEscaped c then "\"%char :: c :: escapeChars l' else c :: escapeChars l'
  end.

Definition escapeRegExp (s : string) : string :=
  string_of_list_ascii (escapeChars (list_ascii_of_string s)).

(** Patterns [(a1|a2|...)]: one capturing group holding alternatives of
    literal characters, the wild card [.] and the identity escapes [\c]
    of the characters above.  [parseAlts] reads the alternatives up to
    the closing parenthesis; any other syntax is outside the modelled
    fragment ([None]). *)
Fixpoint parseAlts (w : list ascii) (cur : list Atom) (alts : list (list Atom))
  : option (list (list Atom) * list ascii) :=
  match w with
  | [] => None
  | c :: w' =>
      if Ascii.eqb c ")" then Some (rev (rev cur :: alts), w')
      else if Ascii.eqb c "|" then parseAlts w' [] (rev cur :: alts)
      else if Ascii.eqb c "\" then
        match w' with
        | d :: w'' => if isEscaped d then parseAlts w'' (Lit d :: cur) alts else None
        | [] => None
        end
      else if Ascii.eqb c "." then parseAlts w' (AnyChar :: cur) alts
      else if isRegexSyntax c then None
      else parseAlts w' (Lit c :: cur) alts
  end.

Definition compileGroup (src : string) : option (list (list Atom)) :=
  match list_ascii_of_string src with
  | c :: w =>
      if Ascii.eqb c "(" then
        match parseAlts w [] [] with
        | Some (alts, []) => Some alts
        | _ => None
        end
      else None
  | [] => None
  end.

(** The number of characters a sequence of atoms consumes. *)
Fixpoint width (a : list Atom) : nat :=
  match a with
  | [] => 0
  | WordBoundary :: a' => width a'
  | _ :: a' => S (width a')
  end.

(** The alternatives are tried in order: the end of the match at [q] of
    the first one that matches there. *)
Fixpoint firstAlt (alts : list (list Atom)) (t : list ascii) (q : nat) : option nat :=
  match alts with
  | [] => None
  | a :: alts' => if matchAt a t q then Some (q + width a) else firstAlt alts' t q
  end.

(** [S.split(R)] for a pattern that is one capturing group
    ([RegExp.prototype[@@split]]): [p] is the end of the last match, [q]
    the position tried (the sticky matcher at [q]).  A match ending at
    [e <> p] pushes [S[p..q)] and the capture [S[q..e)] and continues at
    [e]; no match, or a match ending at [p], moves [q] on.  The fuel
    [2 * size + 1] exceeds the number of steps ([2 * (size - q)] plus one
    when [p < q] decreases at each step). *)
Fixpoint splitLoop (alts : list (list Atom)) (t : list ascii) (fuel p q : nat)
  : list (list ascii) :=
  match fuel with
  | 0 => [skipn p t]
  | S f =>
      if q <? List.length t then
        match firstAlt alts t q with
        | None => splitLoop alts t f p (S q)
        | Some e =>
            if e =? p then splitLoop alts t f p (S q)
            else firstn (q - p) (skipn p t) :: firstn (e - q) (skipn q t)
                 :: splitLoop alts t f e e
        end
      else [skipn p t]
  end.

Definition regexSplit (alts : list (list Atom)) (text : string) : list string :=
  let t := list_ascii_of_string text in
  if List.length t =? 0 then
    match firstAlt alts t 0 with Some _ => [] | None => [text] end
  else map string_of_list_ascii (splitLoop alts t (2 * List.length t + 1) 0 0).

(** What is rendered: the text itself, or the parts, [true] for a part
    wrapped in the highlighting [<span>]. *)
Inductive Highlighted :=
| Plain (s : string)
| Parts (ps : list (bool * string)).

(** The first version (lines 50-77): every search term, escaped, is an
    alternative of [new RegExp(`(${pattern})`, "gi")]; a part is
    highlighted when it equals a search term ignoring case.  [None] when
    the pattern is outside the modelled fragment. *)
Definition highlightSearchTerm (text : string) (searchTerms : list string)
  : option Highlighted :=
  if String.eqb text "" || (List.length searchTerms =? 0) then Some (Plain text) else
  let pattern := String.concat "|" (map escapeRegExp searchTerms) in
  match compileGroup ("(" ++ pattern ++ ")") with
  | None => None
  | Some alts =>
      Some (Parts (map (fun part =>
                          (existsb (fun term => String.eqb (toLowerCase part) (toLowerCase term))
                                   searchTerms, part))
                       (regexSplit alts text)))
  end.

(** The second version (lines 641-661): the term goes into
    [new RegExp(`(${term})`, "i")] unescaped.  [None] when the pattern is
    outside the modelled fragment (JavaScript may accept it, or throw,
    and the [catch] returns the text). *)
Definition highlightSearchTermV2 (text term : string) : option Highlighted :=
  if String.eqb text "" || String.eqb term "" then Some (Plain text) else
  match compileGroup ("(" ++ term ++ ")") with
  | None => None
  | Some alts =>
      Some (Parts (map (fun part => (String.eqb (toLowerCase part) (toLowerCase term), part))
                       (regexSplit alts text)))
  end.

(** The parts at odd positions (the captures) satisfy [P]. *)
Fixpoint oddAll {X} (P : X -> Prop) (l : list X) : Prop :=
  match l with
  | _ :: b :: l' => P b /\ oddAll P l'
  | _ => True
  end.

(** The pattern of one escaped search term: its characters, literally. *)
Definition litAlt (t : string) : list Atom := map Lit (list_ascii_of_string t).

(** [cap] is the text matched by one of [alts] at some position of [t]. *)
Definition isCapture (alts : list (list Atom)) (t cap : list ascii) : Prop :=
  exists a q, In a alts /\ matchAt a t q = true /\ cap = firstn (width a) (skipn q t).

(** No character of [s] is one that [escapeRegExp] escapes: [(${s})] and
    [\b${s}\b] are then valid patterns in which [s] stands for itself, so
    [new RegExp] cannot throw on them. *)
Definition noRegexSpecial (s : string) : bool :=
  forallb (fun c => negb (isEscaped c)) (list_ascii_of_string s).

End Highlight.

(** * The first [DataElementSearch]: its search handlers (lines 150-281) *)
Module V1Search.

(** The JSON of [GET .../dataelement/{name}] as the handler reads it: a
    missing or empty [type] or [description] is the empty string (it is
    only read through [x || default]). *)
Record FullData := mkFullData {
  fd_type : string;
  fd_description : string;
  fd_notes : option string
}.

(** A data structure of a search result.  A missing [title] or [category]
    is the empty string, so [ds.title || ""] and [ds.category || ""] keep
    it as it is. *)
Record DataStructureRef := mkDataStructureRef {
  ds_shortName : string;
  ds_title : string;
  ds_category : string
}.

(** One entry of [searchResults.datadict.results]. *)
Record SearchResult := mkSearchResult {
  sr_name : string;
  sr_type : string;
  sr_dataStructures : option (list DataStructureRef);
  sr_score : option Q
}.

(** The object built for a search result (lines 214-236). *)
Record Detail := mkDetail {
  d_name : string;
  d_type : string;
  d_description : string;
  d_notes : option string;
  d_dataStructures : list DataStructureRef;
  d_total_data_structures : nat;
  d_score : option Q;
  d_searchTerms : list string;
  d_matchType : string
}.

(** ** Component state (lines 7-13) *)
Record UIState := mkUIState {
  searchTerm : string;
  loading : bool;
  error : option string;
  element : option FullData;
  matchingElements : list Detail;
  isPartialSearch : bool;
  recentSearches : list string
}.

Definition setSearchTerm (t : string) (s : UIState) : UIState :=
  mkUIState t (loading s) (error s) (element s) (matchingElements s)
            (isPartialSearch s) (recentSearches s).
Definition setLoading (b : bool) (s : UIState) : UIState :=
  mkUIState (searchTerm s) b (error s) (element s) (matchingElements s)
            (isPartialSearch s) (recentSearches s).
Definition setError (e : option string) (s : UIState) : UIState :=
  mkUIState (searchTerm s) (loading s) e (element s) (matchingElements s)
            (isPartialSearch s) (recentSearches s).
Definition setElement (e : option FullData) (s : UIState) : UIState :=
  mkUIState (searchTerm s) (loading s) (error s) e (matchingElements s)
            (isPartialSearch s) (recentSearches s).
Definition setMatchingElements (m : list Detail) (s : UIState) : UIState :=
  mkUIState (searchTerm s) (loading s) (error s) (element s) m
            (isPartialSearch s) (recentSearches s).
Definition setIsPartialSearch (b : bool) (s : UIState) : UIState :=
  mkUIState (searchTerm s) (loading s) (error s) (element s) (matchingElements s)
            b (recentSearches s).
(** [setRecentSearches(prev => ...)] *)
Definition setRecentSearches (f : list string -> list string) (s : UIState) : UIState :=
  mkUIState (searchTerm s) (loading s) (error s) (element s) (matchingElements s)
            (isPartialSearch s) (f (recentSearches s)).

(** ** Requests *)
Inductive Req :=
| GetDataElement (n : string)   (* GET .../dataelement/{n} *)
| SearchFull (query : string).  (* POST .../search/nda/dataelement/full, body [query] *)

(** [searchResults?.datadict?.results]: [None] when it is absent. *)
Definition body (r : Req) : Type :=
  match r with
  | GetDataElement _ => FullData
  | SearchFull _ => option (list SearchResult)
  end.

Definition Req_eq_dec (x y : Req) : {x = y} + {x <> y}.
Proof. decide equality; apply string_dec. Defined.

Inductive Prog (A : Type) : Type :=
| Ret (a : A)
| Update (f : UIState -> UIState) (k : Prog A)
| Fetch (r : Req) (k : V2.Response (body r) -> Prog A).
Arguments Ret {A} a.
Arguments Update {A} f k.
Arguments Fetch {A} r k.

Fixpoint bind {A B} (p : Prog A) (f : A -> Prog B) : Prog B :=
  match p with
  | Ret a => f a
  | Update g k => Update g (bind k f)
  | Fetch r k => Fetch r (fun x => bind (k x) f)
  end.

Definition Oracle := forall r : Req, V2.Response (body r).

Fixpoint exec {A} (o : Oracle) (p : Prog A) (s : UIState) : UIState * list Req * A :=
  match p with
  | Ret a => (s, [], a)
  | Update f k => exec o k (f s)
  | Fetch r k =>
      let '(s', tr, a) := exec o (k (o r)) s in (s', r :: tr, a)
  end.

Definition finalState {A} o (p : Prog A) s : UIState := fst (fst (exec o p s)).
Definition trace {A} o (p : Prog A) s : list Req := snd (fst (exec o p s)).
Definition result {A} o (p : Prog A) s : A := snd (exec o p s).

(** [a || b] on strings, the empty string being falsy. *)
Definition jsOr (a b : string) : string := if String.eqb a "" then b else a.

(** The [async (result) => {...}] callback after its fetch (lines 199-246):
    a rejected fetch, a status that is not [ok] or a body that is not JSON
    give [null]. *)
Definition detailOf (searchQuery : string) (r : SearchResult)
  (response : V2.Response FullData) : option Detail :=
  match response with
  | V2.HttpOk (inr fullData) =>
      Some {| d_name := sr_name r;
              d_type := jsOr (jsOr (fd_type fullData) (sr_type r)) "Text";
              d_description := jsOr (fd_description fullData) "No description available";
              d_notes := fd_notes fullData;
              d_dataStructures := match sr_dataStructures r with
                                  | Some l => l | None => [] end;
              d_total_data_structures := match sr_dataStructures r with
                                         | Some l => List.length l | None => 0 end;
              d_score := sr_score r;
              d_searchTerms := [searchQuery];
              d_matchType := if includes (toLowerCase (sr_name r)) (toLowerCase searchQuery)
                             then "name" else "description" |}
  | _ => None
  end.

(** [Promise.all(results.map(...))]: one detail fetch per result, the
    outcomes in the order of the results.  The callbacks touch no state,
    so running them one after the other gives the same requests and
    outcomes. *)
Fixpoint fetchDetails (searchQuery : string) (results : list SearchResult)
  : Prog (list (option Detail)) :=
  match results with
  | [] => Ret []
  | r :: rest =>
      Fetch (GetDataElement (sr_name r)) (fun response =>
        bind (fetchDetails searchQuery rest) (fun ds =>
        Ret (detailOf searchQuery r response :: ds)))
  end.

(** [x._score || 0] *)
Definition scoreOr0 (sc : option Q) : Q :=
  match sc with Some x => x | None => 0%Q end.

(** [.sort((a, b) => (b._score || 0) - (a._score || 0))], stable: a detail
    goes after every detail of a greater or equal score that precedes it. *)
Fixpoint insertByScore (d : Detail) (l : list Detail) : list Detail :=
  match l with
  | [] => [d]
  | y :: l' =>
      if negb (Qle_bool (scoreOr0 (d_score d)) (scoreOr0 (d_score y)))
      then d :: y :: l'
      else y :: insertByScore d l'
  end.

Definition sortByScore (l : list Detail) : list Detail :=
  fold_left (fun acc d => insertByScore d acc) l [].

Definition finallyBlock : Prog unit := Update (setLoading false) (Ret tt).

Definition catchBlock (msg : string) : Prog unit :=
  Update (setError (Some ("Error searching for elements: " ++ msg))) finallyBlock.

(** [updateRecentSearches] (lines 29-33), reading [recentSearches] of the
    render that created the handler. *)
Definition updateRecentSearches (snapshot : list string) (newTerm : string)
  (k : Prog unit) : Prog unit :=
  if existsb (String.eqb newTerm) snapshot then k
  else Update (setRecentSearches (fun prev => firstn 10 (newTerm :: prev))) k.

(** [handleSearch] (lines 150-262), closing over the render [st]. *)
Definition handleSearch (st : UIState) : Prog unit :=
  if String.eqb (trim (searchTerm st)) "" then Ret tt else
  Update (setLoading true) (Update (setError None) (Update (setElement None)
  (Update (setMatchingElements []) (Update (setIsPartialSearch false)
  (Fetch (GetDataElement (trim (searchTerm st))) (fun directResponse =>
   match directResponse with
   | V2.NetError msg => catchBlock msg
   | V2.HttpOk (inl msg) => catchBlock msg
   | V2.HttpOk (inr data) =>
       Update (setElement (Some data))
       (updateRecentSearches (recentSearches st) (trim (searchTerm st))
       (Update (setLoading false) finallyBlock))
   | V2.HttpNotOk =>
       let searchQuery := trim (searchTerm st) in
       Fetch (SearchFull searchQuery) (fun partialResponse =>
       match partialResponse with
       | V2.NetError msg => catchBlock msg
       | V2.HttpNotOk => catchBlock "Failed to fetch matching elements"
       | V2.HttpOk (inl msg) => catchBlock msg
       | V2.HttpOk (inr searchResults) =>
           match searchResults with
           | None | Some [] =>
               Update (setError (Some (V2.noMatchMessage (searchTerm st))))
               (Update (setLoading false) finallyBlock)
           | Some results =>
               bind (fetchDetails searchQuery results) (fun elementDetails =>
               let validElements := sortByScore (V2.filterSome elementDetails) in
               Update (setMatchingElements validElements)
               (Update (setIsPartialSearch true)
               (updateRecentSearches (recentSearches st) (trim (searchTerm st))
               finallyBlock)))
           end
       end)
   end)))))).

(** [handleClear] (lines 270-276) *)
Definition handleClear : Prog unit :=
  Update (setSearchTerm "") (Update (setElement None) (Update (setError None)
  (Update (setMatchingElements []) (Update (setIsPartialSearch false) (Ret tt))))).

(** [handleRecentSearch] (lines 278-281): [await handleSearch()] runs the
    handler of the same render. *)
Definition handleRecentSearch (st : UIState) (term : string) : Prog unit :=
  Update (setSearchTerm term) (handleSearch st).

(** ** Concrete runs *)

Definition stateWith (q : string) : UIState := mkUIState q false None None [] false [].

Definition ageData : FullData := mkFullData "Integer" "Age in months" None.

(** The exact lookup finds every name; the full-text search is down. *)
Definition oracleFound : Oracle := fun r =>
  match r return V2.Response (body r) with
  | GetDataElement _ => V2.HttpOk (inr ageData)
  | SearchFull _ => V2.HttpNotOk
  end.

(** ["age"] is not an element name; the full-text search returns two
    scored results, whose details exist. *)
Definition oraclePartial : Oracle := fun r =>
  match r return V2.Response (body r) with
  | GetDataElement n => if String.eqb n "age" then V2.HttpNotOk else V2.HttpOk (inr ageData)
  | SearchFull _ =>
      V2.HttpOk (inr (Some [mkSearchResult "age_months" "" None (Some 2%Q);
                            mkSearchResult "age_years" "" None (Some 5%Q)]))
  end.

(** Every request answers with a non-[ok] status. *)
Definition oracleNotOk : Oracle := fun r =>
  match r return V2.Response (body r) with
  | GetDataElement _ => V2.HttpNotOk
  | SearchFull _ => V2.HttpNotOk
  end.

End V1Search.

(** * Proofs *)

Module V1Facts.
Import V1.

Lemma ed_0_l s1 s2 j : ed s1 s2 0 j = j.
Proof. reflexivity. Qed.

Lemma ed_0_r s1 s2 i : ed s1 s2 i 0 = i.
Proof. destruct i; reflexivity. Qed.

Lemma ed_S_S s1 s2 i j :
  ed s1 s2 (S i) (S j) =
  Nat.min (Nat.min (ed s1 s2 i (S j) + 1) (ed s1 s2 (S i) j + 1))
          (ed s1 s2 i j + indicator (nth i s1 "000"%char) (nth j s2 "000"%char)).
Proof. reflexivity. Qed.

Lemma indicator_sym c1 c2 : indicator c1 c2 = indicator c2 c1.
Proof.
  unfold indicator. destruct (Ascii.eqb_spec c1 c2), (Ascii.eqb_spec c2 c1);
    congruence.
Qed.

Lemma indicator_refl c : indicator c c = 0.
Proof. unfold indicator. now rewrite Ascii.eqb_refl. Qed.

Lemma ed_sym s1 s2 i j : ed s1 s2 i j = ed s2 s1 j i.
Proof.
  revert j. induction i as [|i IHi]; intro j.
  - rewrite ed_0_l, ed_0_r. reflexivity.
  - induction j as [|j IHj].
    + rewrite ed_0_r, ed_0_l. reflexivity.
    + rewrite !ed_S_S, IHj, !IHi, indicator_sym. lia.
Qed.

Lemma ed_diag s i : ed s s i i = 0.
Proof.
  induction i as [|i IHi]; [reflexivity|].
  rewrite ed_S_S, IHi, indicator_refl. lia.
Qed.

Lemma nth_skipn_hd {A} (l t : list A) k c d :
  skipn k l = c :: t -> nth k l d = c.
Proof.
  revert l. induction k as [|k IH]; intros l H.
  - destruct l; cbn in *; congruence.
  - destruct l; cbn in *; [discriminate|]. eauto.
Qed.

(** One call of [lev_fill] computes row [S j] from row [j], column by
    column, starting at column [k]. *)
Lemma lev_fill_row s1 s2 j : forall t k,
  skipn k s1 = t ->
  lev_fill t (nth j s2 "000"%char)
           (map (fun i => ed s1 s2 i j) (seq k (List.length t + 1)))
           (ed s1 s2 k (S j))
  = map (fun i => ed s1 s2 i (S j)) (seq (S k) (List.length t)).
Proof.
  induction t as [|c t IH]; intros k Hk; [reflexivity|].
  assert (Hc : nth k s1 "000"%char = c) by (eapply nth_skipn_hd; eauto).
  replace (List.length (c :: t) + 1) with (S (S (List.length t))) by (cbn; lia).
  cbn [List.length seq map lev_fill].
  assert (Hv : Nat.min (Nat.min (ed s1 s2 k (S j) + 1) (ed s1 s2 (S k) j + 1))
                 (ed s1 s2 k j + (if Ascii.eqb c (nth j s2 "000"%char) then 0 else 1))
               = ed s1 s2 (S k) (S j)).
  { rewrite ed_S_S, Hc. unfold indicator. lia. }
  rewrite Hv. f_equal.
  specialize (IH (S k)).
  replace (List.length t + 1) with (S (List.length t)) in IH by lia.
  cbn [seq map] in IH. apply IH.
  rewrite <- (skipn_skipn 1 k), Hk. reflexivity.
Qed.

Lemma lev_rows_spec s1 s2 : forall t j,
  j + List.length t = List.length s2 ->
  skipn j s2 = t ->
  lev_rows s1 t j (map (fun i => ed s1 s2 i j) (seq 0 (List.length s1 + 1)))
  = map (fun i => ed s1 s2 i (List.length s2)) (seq 0 (List.length s1 + 1)).
Proof.
  induction t as [|c t IH]; intros j Hlen Hj.
  - cbn in Hlen. rewrite Nat.add_0_r in Hlen. subst j. reflexivity.
  - cbn [lev_rows].
    assert (Hc : nth j s2 "000"%char = c) by (eapply nth_skipn_hd; eauto).
    pose proof (lev_fill_row s1 s2 j s1 0 eq_refl) as Hrow.
    rewrite Hc in Hrow. cbn [skipn] in Hrow.
    replace (S j :: lev_fill s1 c (map (fun i => ed s1 s2 i j) (seq 0 (List.length s1 + 1))) (S j))
      with (map (fun i => ed s1 s2 i (S j)) (seq 0 (List.length s1 + 1))).
    + apply IH; [cbn in Hlen; lia|].
      rewrite <- (skipn_skipn 1 j), Hj. reflexivity.
    + rewrite ed_0_l in Hrow. rewrite Hrow, Nat.add_1_r. reflexivity.
Qed.

Lemma last_map_seq (f : nat -> nat) n : last (map f (seq 0 (n + 1))) 0 = f n.
Proof.
  rewrite seq_app, map_app. cbn. apply last_last.
Qed.

(** [levenshteinDistance] refines the recurrence [ed]. *)
Lemma levenshteinDistance_ed str1 str2 :
  levenshteinDistance str1 str2 =
  ed (list_ascii_of_string str1) (list_ascii_of_string str2)
     (List.length (list_ascii_of_string str1))
     (List.length (list_ascii_of_string str2)).
Proof.
  unfold levenshteinDistance.
  set (l1 := list_ascii_of_string str1). set (l2 := list_ascii_of_string str2).
  replace (seq 0 (List.length l1 + 1))
    with (seq 0 (List.length l1 + 1)) by reflexivity.
  rewrite <- (map_id (seq 0 (List.length l1 + 1))) at 1.
  replace (map (fun x => x) (seq 0 (List.length l1 + 1)))
    with (map (fun i => ed l1 l2 i 0) (seq 0 (List.length l1 + 1))).
  - rewrite lev_rows_spec by reflexivity.
    apply (last_map_seq (fun i => ed l1 l2 i (List.length l2))).
  - apply map_ext. intro i. apply ed_0_r.
Qed.

(** C7: [levenshteinDistance] is zero on equal strings, symmetric, and
    [levenshteinDistance "kitten" "sitting"] is 3. *)
Theorem levenshteinDistance_laws :
  (forall a, levenshteinDistance a a = 0) /\
  (forall a b, levenshteinDistance a b = levenshteinDistance b a) /\
  levenshteinDistance "kitten" "sitting" = 3.
Proof.
  split; [|split].
  - intro a. rewrite levenshteinDistance_ed. apply ed_diag.
  - intros a b. rewrite !levenshteinDistance_ed. apply ed_sym.
  - reflexivity.
Qed.

(** C1 (fails): a case-insensitive exact name match scores 1000, but a
    non-exact match can score more.  For the query ["a_b_c_d_e_f"] and the
    element ["a_b_c_d_e_f_g"], the six query tokens each match exactly
    (6 * 100), the name starts with the query followed by ["_"] (+500) and
    no dampening applies, so the score is 1100 > 1000. *)
Theorem calculateRelevance_prefix_beats_perfect :
  (forall e q, toLowerCase (name e) = toLowerCase q ->
               calculateRelevance e q = 1000%Q) /\
  toLowerCase "a_b_c_d_e_f_g" <> toLowerCase "a_b_c_d_e_f" /\
  calculateRelevance (mkElement "a_b_c_d_e_f_g" "" "") "a_b_c_d_e_f" = 1100%Q /\
  (1000 < calculateRelevance (mkElement "a_b_c_d_e_f_g" "" "") "a_b_c_d_e_f")%Q.
Proof.
  split; [|split; [|split]].
  - intros e q H. unfold calculateRelevance. rewrite H, String.eqb_refl.
    reflexivity.
  - vm_compute. discriminate.
  - vm_compute. reflexivity.
  - vm_compute. reflexivity.
Qed.

(** ** Further properties of [levenshteinDistance] and [calculateRelevance] *)

Lemma length_list_ascii_of_string s : List.length (list_ascii_of_string s) = String.length s.
Proof. induction s as [|c s IH]; cbn; [reflexivity|now rewrite IH]. Qed.

Lemma ed_bounds s1 s2 i : forall j,
  i - j <= ed s1 s2 i j /\ j - i <= ed s1 s2 i j /\ ed s1 s2 i j <= Nat.max i j.
Proof.
  induction i as [|i IHi]; intro j.
  - rewrite ed_0_l. lia.
  - induction j as [|j IHj].
    + rewrite ed_0_r. lia.
    + rewrite ed_S_S.
      pose proof (IHi (S j)) as H1. pose proof (IHi j) as H2.
      assert (indicator (nth i s1 "000"%char) (nth j s2 "000"%char) <= 1)
        by (unfold indicator; destruct (Ascii.eqb _ _); lia).
      lia.
Qed.

Lemma ed_zero s1 s2 i : forall j,
  ed s1 s2 i j = 0 -> i = j /\ forall k, k < i -> nth k s1 "000"%char = nth k s2 "000"%char.
Proof.
  induction i as [|i IHi]; intros j H.
  - rewrite ed_0_l in H. split; [lia|intros k Hk; lia].
  - destruct j as [|j]; [rewrite ed_0_r in H; discriminate|].
    rewrite ed_S_S in H.
    assert (Hd : ed s1 s2 i j = 0 /\
                 indicator (nth i s1 "000"%char) (nth j s2 "000"%char) = 0) by lia.
    destruct Hd as [Hd Hi]. destruct (IHi j Hd) as [-> Hk].
    split; [reflexivity|]. intros k Hlt.
    destruct (Nat.eq_dec k j) as [->|Hne]; [|apply Hk; lia].
    unfold indicator in Hi. destruct (Ascii.eqb_spec (nth j s1 "000"%char) (nth j s2 "000"%char));
      [assumption|discriminate].
Qed.

(** [levenshteinDistance] lies between the difference of the lengths and
    the greater length; in particular the distance to the empty string is
    the length. *)
Theorem levenshteinDistance_bounds a b :
  String.length a - String.length b <= levenshteinDistance a b /\
  String.length b - String.length a <= levenshteinDistance a b /\
  levenshteinDistance a b <= Nat.max (String.length a) (String.length b).
Proof.
  rewrite levenshteinDistance_ed, !length_list_ascii_of_string. apply ed_bounds.
Qed.

(** [levenshteinDistance a b] is zero exactly when the strings are equal. *)
Theorem levenshteinDistance_zero_iff a b : levenshteinDistance a b = 0 <-> a = b.
Proof.
  split.
  - rewrite levenshteinDistance_ed. intro H.
    destruct (ed_zero _ _ _ _ H) as [Hlen Hnth].
    rewrite <- (string_of_list_ascii_of_string a), <- (string_of_list_ascii_of_string b).
    f_equal. apply nth_ext with (d := "000"%char) (d' := "000"%char); [exact Hlen|].
    intros k Hk. apply Hnth. exact Hk.
  - intros ->. rewrite levenshteinDistance_ed. apply ed_diag.
Qed.

Lemma partScore_range b : (0 <= partScore b /\ partScore b <= 100)%Q.
Proof.
  destruct b as [[|[|[|d]]]|]; cbn; split; try (intro H; discriminate H).
Qed.

Lemma fold_score_range {X} (f : X -> Q) (l : list X) : forall acc,
  (forall x, 0 <= f x /\ f x <= 100)%Q -> (0 <= acc)%Q ->
  (0 <= fold_left (fun score x => score + f x) l acc)%Q /\
  (fold_left (fun score x => score + f x) l acc <=
   acc + 100 * inject_Z (Z.of_nat (List.length l)))%Q.
Proof.
  induction l as [|x l IH]; intros acc Hf Hacc; cbn [fold_left List.length].
  - split; [exact Hacc|]. change (inject_Z (Z.of_nat 0)) with 0%Q. lra.
  - destruct (Hf x) as [H0 H1].
    destruct (IH (acc + f x)%Q Hf) as [IH0 IH1]; [lra|].
    split; [exact IH0|].
    rewrite Nat2Z.inj_succ, <- Z.add_1_r, inject_Z_plus.
    change (inject_Z 1) with 1%Q. lra.
Qed.

(** The token-based score is never negative.  An exact name match scores
    1000; any other name scores at most 100 per ["_"]-separated part of the
    query plus 500. *)
Theorem calculateRelevance_bounds e q :
  (0 <= calculateRelevance e q)%Q /\
  (calculateRelevance e q <=
     if String.eqb (toLowerCase (name e)) (toLowerCase q) then 1000
     else 100 * inject_Z (Z.of_nat (List.length (splitStr "_" (toLowerCase q)))) + 500)%Q.
Proof.
  unfold calculateRelevance. cbv zeta.
  destruct (String.eqb (toLowerCase (name e)) (toLowerCase q)).
  - split; intro H; discriminate H.
  - match goal with
    | |- context [fold_left ?g ?l 0%Q] =>
        set (S := fold_left g l 0%Q);
        destruct (fold_score_range
                    (fun searchPart =>
                       partScore (fold_left
                                    (fun best elementPart =>
                                       minInf best (levenshteinDistance searchPart elementPart))
                                    (splitStr "_" (toLowerCase (name e))) None))
                    l 0%Q) as [H0 H1];
        [intro; apply partScore_range|lra|]
    end.
    change (fold_left _ _ 0%Q) with S in H0, H1.
    set (K := inject_Z _) in *.
    assert (0 <= K)%Q by (unfold K, Qle; cbn; lia).
    destruct (startsWith _ _), (_ || _), (negb _); split; lra.
Qed.

End V1Facts.

Module V2Facts.
Import V2.
Local Open Scope list_scope.

(** ** Running programs *)

Lemma exec_bind {A B} o (p : Prog A) (f : A -> Prog B) s :
  exec o (bind p f) s =
  let '(s1, tr1, a) := exec o p s in
  let '(s2, tr2, b) := exec o (f a) s1 in (s2, tr1 ++ tr2, b).
Proof.
  revert s. induction p as [a|g k IH|r k IH|ms k IH]; intro s; cbn.
  - destruct (exec o (f a) s) as [[s2 tr2] b]. reflexivity.
  - apply IH.
  - rewrite IH. destruct (exec o (k (o r)) s) as [[s1 tr1] a].
    destruct (exec o (f a) s1) as [[s2 tr2] b]. reflexivity.
  - apply IH.
Qed.

(** A program never reads the state: its requests and its result do not
    depend on the state it starts in. *)
Lemma exec_state_indep {A} o (p : Prog A) s s' :
  trace o p s = trace o p s' /\ result o p s = result o p s'.
Proof.
  unfold trace, result. revert s s'.
  induction p as [a|g k IH|r k IH|ms k IH]; intros s s'; cbn.
  - auto.
  - apply IH.
  - specialize (IH (o r) s s').
    destruct (exec o (k (o r)) s) as [[s1 tr1] a1].
    destruct (exec o (k (o r)) s') as [[s2 tr2] a2]. cbn in *.
    destruct IH; subst. auto.
  - apply IH.
Qed.

Lemma result_indep {A} o (p : Prog A) s s' : result o p s = result o p s'.
Proof. apply exec_state_indep. Qed.

Lemma trace_indep {A} o (p : Prog A) s s' : trace o p s = trace o p s'.
Proof. apply exec_state_indep. Qed.

Lemma finalState_bind {A B} o (p : Prog A) (f : A -> Prog B) s :
  finalState o (bind p f) s = finalState o (f (result o p s)) (finalState o p s).
Proof.
  unfold finalState, result. rewrite exec_bind.
  destruct (exec o p s) as [[s1 tr1] a]. cbn.
  destruct (exec o (f a) s1) as [[s2 tr2] b]. reflexivity.
Qed.

Lemma trace_bind {A B} o (p : Prog A) (f : A -> Prog B) s :
  trace o (bind p f) s = trace o p s ++ trace o (f (result o p s)) (finalState o p s).
Proof.
  unfold finalState, result, trace. rewrite exec_bind.
  destruct (exec o p s) as [[s1 tr1] a]. cbn.
  destruct (exec o (f a) s1) as [[s2 tr2] b]. reflexivity.
Qed.

Lemma result_bind {A B} o (p : Prog A) (f : A -> Prog B) s :
  result o (bind p f) s = result o (f (result o p s)) (finalState o p s).
Proof.
  unfold finalState, result. rewrite exec_bind.
  destruct (exec o p s) as [[s1 tr1] a]. cbn.
  destruct (exec o (f a) s1) as [[s2 tr2] b]. reflexivity.
Qed.

(** ** Frames: which fields a program may write *)

Lemma updatesAll_bind {A B} P (p : Prog A) (f : A -> Prog B) :
  updatesAll P p -> (forall a, updatesAll P (f a)) -> updatesAll P (bind p f).
Proof.
  induction p as [a|g k IH|r k IH|ms k IH]; cbn; intuition.
Qed.

Lemma finalState_core {A} o (p : Prog A) s :
  updatesAll keepsCore p -> core (finalState o p s) = core s.
Proof.
  unfold finalState. revert s.
  induction p as [a|g k IH|r k IH|ms k IH]; intros s Hp; cbn in *.
  - reflexivity.
  - destruct Hp as [Hg Hk]. rewrite (IH _ Hk). apply Hg.
  - specialize (IH (o r) s (Hp (o r))).
    destruct (exec o (k (o r)) s) as [[s1 tr1] a1]. exact IH.
  - apply IH, Hp.
Qed.

Lemma keepsCore_setLoadingState f : keepsCore (setLoadingState f).
Proof. intro s. reflexivity. Qed.

Lemma fetchBatch_updates cache0 batch cache :
  updatesAll keepsCore (fetchBatch cache0 batch cache).
Proof.
  revert cache. induction batch as [|sn rest IH]; intro cache; cbn; [exact I|].
  destruct (mapGet cache0 sn).
  - apply updatesAll_bind; [apply IH|]. intros [rs c]. exact I.
  - intro r. destruct (handleStructureResponse sn r cache) as [res cache1].
    apply updatesAll_bind; [apply IH|]. intros [rs c]. exact I.
Qed.

Lemma batchLoop_updates cw st batches i t cache found :
  updatesAll keepsCore (batchLoop cw st batches i t cache found).
Proof.
  revert i cache found.
  induction batches as [|b rest IH]; intros i cache found;
    cbn [batchLoop updatesAll]; [exact I|].
  split; [apply keepsCore_setLoadingState|].
  apply updatesAll_bind; [apply fetchBatch_updates|]. intros [results cache'].
  destruct (i <? t - 1); exact (IH _ _ _).
Qed.

(** [findElementsByPattern] only writes the progress record. *)
Lemma findElementsByPattern_updates cw q :
  updatesAll keepsCore (findElementsByPattern cw q).
Proof.
  unfold findElementsByPattern. cbn [updatesAll].
  split; [apply keepsCore_setLoadingState|].
  intros r1 r2. destruct (jsonAll [r1; r2]) as [arrs|]; cbn [updatesAll].
  - split; [apply keepsCore_setLoadingState|].
    apply updatesAll_bind; [apply batchLoop_updates|]. intro found.
    cbn [updatesAll]. split; [apply keepsCore_setLoadingState|exact I].
  - split; [apply keepsCore_setLoadingState|exact I].
Qed.

(** ** Strings *)

Lemma trimStart_spaces s :
  Forall (fun c => isJsSpace c = true) (list_ascii_of_string s) -> trimStart s = "".
Proof.
  induction s as [|c s IH]; intro H; [reflexivity|].
  cbn in H. inversion H as [|? ? Hc Hs]; subst. cbn. rewrite Hc. apply IH, Hs.
Qed.

Lemma trim_spaces s :
  Forall (fun c => isJsSpace c = true) (list_ascii_of_string s) -> trim s = "".
Proof. intro H. unfold trim. rewrite (trimStart_spaces s H). reflexivity. Qed.

Lemma prefix_app_l p t : String.prefix p (p ++ t)%string = true.
Proof.
  induction p as [|c p IH]; cbn; [destruct t; reflexivity|].
  destruct (ascii_dec c c); [exact IH|congruence].
Qed.

Lemma includes_prefix s q : String.prefix q s = true -> includes s q = true.
Proof. destruct s; cbn; intro H; rewrite H; reflexivity. Qed.

Lemma includes_cons c s q : includes s q = true -> includes (String c s) q = true.
Proof. intro H. cbn. rewrite H. apply orb_true_r. Qed.

Lemma includes_app_r a t q : includes t q = true -> includes (a ++ t)%string q = true.
Proof.
  intro H. induction a as [|c a IH]; cbn [append]; [exact H|].
  apply includes_cons, IH.
Qed.

Lemma includes_noMatchMessage q : includes (noMatchMessage q) q = true.
Proof.
  unfold noMatchMessage. apply includes_app_r, includes_app_r.
  apply includes_prefix, prefix_app_l.
Qed.

Lemma finalState_update {A} o f (k : Prog A) s :
  finalState o (Update f k) s = finalState o k (f s).
Proof. reflexivity. Qed.

Lemma finalState_fetch {A} o r (k : _ -> Prog A) s :
  finalState o (Fetch r k) s = finalState o (k (o r)) s.
Proof.
  unfold finalState. cbn. destruct (exec o (k (o r)) s) as [[s1 tr] a]. reflexivity.
Qed.

Lemma core_fields s s' : core s = core s' ->
  searchTerm s = searchTerm s' /\ loading s = loading s' /\ error s = error s' /\
  element s = element s' /\ matchingElements s = matchingElements s' /\
  isPartialSearch s = isPartialSearch s' /\ recentSearches s = recentSearches s'.
Proof. unfold core. intro H. injection H. intuition. Qed.

Lemma findElementsByPattern_core cw o q s :
  core (finalState o (findElementsByPattern cw q) s) = core s.
Proof. apply finalState_core, findElementsByPattern_updates. Qed.

(** C9: a search for an empty or blank query returns at once: it issues
    no request and writes no state. *)
Theorem handleSearch_blank_noop cw st :
  Forall (fun c => isJsSpace c = true) (list_ascii_of_string (searchTerm st)) ->
  handleSearch cw st = Ret tt /\
  forall o s, exec o (handleSearch cw st) s = (s, [], tt).
Proof.
  intro H. unfold handleSearch. rewrite (trim_spaces _ H). cbn.
  split; reflexivity.
Qed.

(** C3 (amended): when the exact lookup is not [ok] and the pattern search
    finds nothing, the search ends with the error message
    [No data elements found containing "<query>"], which contains the
    query as typed, with no element and no matches shown; the recent-search
    history is left as it was. *)
Theorem handlePartialSearch_no_match cw o st s :
  trim (searchTerm st) <> "" ->
  o (GetDataElement (trim (searchTerm st))) = HttpNotOk ->
  result o (findElementsByPattern cw (trim (searchTerm st))) s = [] ->
  let s' := finalState o (handlePartialSearch cw st) s in
  error s' = Some (noMatchMessage (searchTerm st)) /\
  includes (noMatchMessage (searchTerm st)) (searchTerm st) = true /\
  loading s' = false /\ element s' = None /\ matchingElements s' = [] /\
  recentSearches s' = recentSearches s.
Proof.
  intros Hq Ho Hres. cbv zeta. unfold handlePartialSearch.
  remember (trim (searchTerm st)) as q eqn:Eq.
  destruct (String.eqb_spec q "") as [E|_]; [contradiction|].
  rewrite !finalState_update, finalState_fetch, Ho.
  cbv beta iota. rewrite finalState_bind.
  erewrite result_indep, Hres.
  set (s1 := setElement None (setMatchingElements [] (setIsPartialSearch true
               (setError None (setLoading true s))))).
  pose proof (core_fields _ _ (findElementsByPattern_core cw o q s1)) as Hc.
  set (s2 := finalState o (findElementsByPattern cw q) s1) in *.
  split; [|split; [apply includes_noMatchMessage|]]; cbn; intuition.
Qed.

(** C8 (amended): a new search does not cancel one in flight.  Search A
    is suspended on its exact lookup; search B runs to its end; A then
    resumes.  When A's exact lookup misses and its pattern search finds
    two or more elements, A writes its match list over B's state and
    clears [loading], and leaves B's error message in place: the final
    state mixes both searches. *)
Theorem handleSearch_no_cancellation cw o stA stB s0 msA :
  trim (searchTerm stA) <> "" ->
  o (GetDataElement (trim (searchTerm stA))) = HttpNotOk ->
  result o (findElementsByPattern cw (trim (searchTerm stA))) s0 = msA ->
  2 <= List.length msA ->
  let s1 := fst (runSlice o (handleSearch cw stA) s0) in
  let kA := snd (runSlice o (handleSearch cw stA) s0) in
  let s2 := finalState o (handleSearch cw stB) s1 in
  let s3 := finalState o kA s2 in
  matchingElements s3 = msA /\ error s3 = error s2 /\ loading s3 = false.
Proof.
  intros Hq Ho Hres Hlen. cbv zeta.
  set (pB := handleSearch cw stB).
  unfold handleSearch, handlePartialSearch.
  remember (trim (searchTerm stA)) as q eqn:Eq.
  destruct (String.eqb_spec q "") as [E|_]; [contradiction|].
  cbn [runSlice fst snd]. rewrite Ho. cbv beta iota.
  set (s2 := finalState o pB _).
  rewrite finalState_bind. erewrite result_indep, Hres.
  pose proof (core_fields _ _ (findElementsByPattern_core cw o q s2)) as Hc.
  set (s3 := finalState o (findElementsByPattern cw q) s2) in *.
  destruct msA as [|m0 [|m1 rest]]; cbn in Hlen; try lia.
  cbn. intuition.
Qed.

(** ** The stable sort *)

Lemma insertByRelevance_perm r l : Permutation (insertByRelevance r l) (r :: l).
Proof.
  induction l as [|y l IH]; cbn; [reflexivity|].
  destruct (mr_relevance y <? mr_relevance r)%Z; [reflexivity|].
  rewrite IH. apply perm_swap.
Qed.

Lemma sort_fold_perm l acc :
  Permutation (fold_left (fun acc r => insertByRelevance r acc) l acc) (l ++ acc).
Proof.
  revert acc. induction l as [|x l IH]; intro acc; cbn; [reflexivity|].
  rewrite IH, insertByRelevance_perm. symmetry. apply Permutation_middle.
Qed.

Lemma sortByRelevance_perm l : Permutation (sortByRelevance l) l.
Proof. unfold sortByRelevance. rewrite sort_fold_perm, app_nil_r. reflexivity. Qed.

Lemma insertByRelevance_sorted r l :
  StronglySorted relGe l -> StronglySorted relGe (insertByRelevance r l).
Proof.
  induction l as [|y l IH]; intro Hs; cbn.
  - repeat constructor.
  - apply StronglySorted_inv in Hs as [Hl Hy].
    destruct (Z.ltb_spec (mr_relevance y) (mr_relevance r)) as [Hlt|Hge].
    + constructor; [constructor; assumption|].
      constructor; [unfold relGe; lia|].
      eapply Forall_impl; [|exact Hy]. unfold relGe. intros a Ha. lia.
    + constructor; [apply IH, Hl|].
      apply Forall_forall. intros a Ha.
      apply (Permutation_in _ (insertByRelevance_perm r l)) in Ha.
      destruct Ha as [<-|Ha]; [unfold relGe; lia|].
      rewrite Forall_forall in Hy. apply Hy, Ha.
Qed.

Lemma sort_fold_sorted l acc :
  StronglySorted relGe acc ->
  StronglySorted relGe (fold_left (fun acc r => insertByRelevance r acc) l acc).
Proof.
  revert acc. induction l as [|x l IH]; intros acc H; cbn; [exact H|].
  apply IH, insertByRelevance_sorted, H.
Qed.

Lemma sortByRelevance_sorted l : StronglySorted relGe (sortByRelevance l).
Proof. apply sort_fold_sorted. constructor. Qed.

Lemma filter_none {X} (f : X -> bool) l :
  (forall a, In a l -> f a = false) -> filter f l = [].
Proof.
  induction l as [|a l IH]; intro H; cbn; [reflexivity|].
  rewrite (H a (or_introl eq_refl)). apply IH. intros b Hb. apply H. right. exact Hb.
Qed.

Lemma insertByRelevance_filter k r l :
  StronglySorted relGe l ->
  filter (relEq k) (insertByRelevance r l) =
  filter (relEq k) l ++ (if relEq k r then [r] else []).
Proof.
  induction l as [|y l IH]; intro Hs; cbn [insertByRelevance].
  - cbn. destruct (relEq k r); reflexivity.
  - apply StronglySorted_inv in Hs as [Hl Hy].
    destruct (Z.ltb_spec (mr_relevance y) (mr_relevance r)) as [Hlt|Hge].
    + assert (Hbelow : forall a, In a (y :: l) -> (mr_relevance a < mr_relevance r)%Z).
      { intros a [<-|Ha]; [exact Hlt|].
        rewrite Forall_forall in Hy. specialize (Hy a Ha). unfold relGe in Hy. lia. }
      replace (filter (relEq k) (r :: y :: l))
        with ((if relEq k r then [r] else []) ++ filter (relEq k) (y :: l))
        by (cbn [filter]; destruct (relEq k r); reflexivity).
      destruct (relEq k r) eqn:Er.
      * unfold relEq in Er. apply Z.eqb_eq in Er.
        rewrite (filter_none _ (y :: l)); [reflexivity|].
        intros a Ha. specialize (Hbelow a Ha). unfold relEq. apply Z.eqb_neq. lia.
      * rewrite app_nil_r. reflexivity.
    + cbn [filter]. rewrite (IH Hl). destruct (relEq k y); reflexivity.
Qed.

Lemma sort_fold_filter k l acc :
  StronglySorted relGe acc ->
  filter (relEq k) (fold_left (fun acc r => insertByRelevance r acc) l acc) =
  filter (relEq k) acc ++ filter (relEq k) l.
Proof.
  revert acc. induction l as [|x l IH]; intros acc H; cbn [fold_left].
  - rewrite app_nil_r. reflexivity.
  - rewrite IH by (apply insertByRelevance_sorted, H).
    rewrite insertByRelevance_filter by exact H.
    rewrite <- app_assoc. cbn [filter]. destruct (relEq k x); reflexivity.
Qed.

(** Equal-relevance records keep their relative order. *)
Lemma sortByRelevance_stable k l :
  filter (relEq k) (sortByRelevance l) = filter (relEq k) l.
Proof.
  unfold sortByRelevance. rewrite sort_fold_filter by constructor. reflexivity.
Qed.

(** ** [Map.prototype.set] *)

Lemma mapSet_keys {V} (m : list (string * V)) k v k' :
  In k' (map fst (mapSet m k v)) <-> k' = k \/ In k' (map fst m).
Proof.
  induction m as [|[k0 v0] m IH]; cbn [mapSet map fst].
  - cbn. intuition.
  - destruct (String.eqb_spec k k0) as [->|Hne]; cbn [map fst In].
    + intuition.
    + rewrite IH. intuition.
Qed.

Lemma mapSet_nodup {V} (m : list (string * V)) k v :
  NoDup (map fst m) -> NoDup (map fst (mapSet m k v)).
Proof.
  induction m as [|[k0 v0] m IH]; intro H; cbn [mapSet map fst].
  - repeat constructor. intros [].
  - inversion H as [|? ? Hnin Hnd]; subst.
    destruct (String.eqb_spec k k0) as [->|Hne]; cbn [map fst].
    + constructor; assumption.
    + constructor; [|apply IH, Hnd].
      rewrite mapSet_keys. intros [E|E]; [congruence|contradiction].
Qed.

Lemma mapSet_in {V} (m : list (string * V)) k v k' v' :
  NoDup (map fst m) ->
  In (k', v') (mapSet m k v) -> (k' = k /\ v' = v) \/ (k' <> k /\ In (k', v') m).
Proof.
  induction m as [|[k0 v0] m IH]; intros Hnd Hin; cbn [mapSet] in Hin.
  - destruct Hin as [E|[]]. injection E. auto.
  - inversion Hnd as [|? ? Hnin Hnd']; subst.
    destruct (String.eqb_spec k k0) as [->|Hne].
    + destruct Hin as [E|Hin]; [injection E; auto|].
      right. split; [|right; exact Hin].
      intros ->. apply Hnin. apply (in_map fst) in Hin. exact Hin.
    + destruct Hin as [E|Hin].
      * injection E as <- <-. right. split; [congruence|left; reflexivity].
      * destruct (IH Hnd' Hin) as [H|[H1 H2]]; [left; exact H|right; split; [exact H1|right; exact H2]].
Qed.

Lemma mapSet_in_any {V} (m : list (string * V)) k v k' v' :
  In (k', v') (mapSet m k v) -> v' = v \/ In (k', v') m.
Proof.
  induction m as [|[k0 v0] m IH]; intro Hin; cbn [mapSet] in Hin.
  - destruct Hin as [E|[]]. injection E. auto.
  - destruct (String.eqb_spec k k0).
    + destruct Hin as [E|Hin]; [injection E; auto|right; right; exact Hin].
    + destruct Hin as [E|Hin]; [right; left; exact E|].
      destruct (IH Hin); [left|right; right]; assumption.
Qed.

Lemma lastWrite_snoc n ws r :
  lastWrite n (ws ++ [r]) = if String.eqb (mr_name r) n then Some r else lastWrite n ws.
Proof. unfold lastWrite. rewrite fold_left_app. reflexivity. Qed.

Lemma FoundInv_set ws f r : FoundInv ws f -> FoundInv (ws ++ [r]) (setRecord f r).
Proof.
  intros (Hnd & Hkv & Hkeys). unfold setRecord. split; [|split].
  - apply mapSet_nodup, Hnd.
  - intros k v Hin. destruct (mapSet_in _ _ _ _ _ Hnd Hin) as [[-> ->]|[Hne Hin']].
    + rewrite lastWrite_snoc, String.eqb_refl. auto.
    + destruct (Hkv _ _ Hin') as [Hk Hl]. split; [exact Hk|].
      rewrite lastWrite_snoc. destruct (String.eqb_spec (mr_name r) k); [congruence|exact Hl].
  - intro k. rewrite mapSet_keys, Hkeys, map_app, in_app_iff. cbn. intuition.
Qed.

Lemma FoundInv_fold ws ws' f :
  FoundInv ws f -> FoundInv (ws ++ ws') (fold_left setRecord ws' f).
Proof.
  revert ws f. induction ws' as [|r ws' IH]; intros ws f H; cbn [fold_left].
  - rewrite app_nil_r. exact H.
  - replace (ws ++ r :: ws') with ((ws ++ [r]) ++ ws') by (rewrite <- app_assoc; reflexivity).
    apply IH, FoundInv_set, H.
Qed.

Lemma FoundInv_nil : FoundInv [] [].
Proof. split; [constructor|split]; cbn; intuition. Qed.

(** ** The aggregation *)

Lemma matchRecordOf_name cw st sn el r :
  matchRecordOf cw st sn el = Some r -> mr_name r = name el.
Proof.
  unfold matchRecordOf. destruct (_ || _); [|discriminate].
  intro E. injection E as <-. reflexivity.
Qed.

Lemma aggregate_writes cw st ebs f :
  aggregate cw st ebs f = fold_left setRecord (writes cw st ebs) f.
Proof.
  unfold aggregate, writes. revert f.
  induction ebs as [|[sn els] ebs IH]; intro f; cbn [fold_left flat_map]; [reflexivity|].
  rewrite fold_left_app, <- IH. f_equal.
  revert f. induction els as [|el els IHe]; intro f; cbn [fold_left flat_map]; [reflexivity|].
  rewrite fold_left_app, <- IHe. f_equal.
  destruct (matchRecordOf cw st sn el) as [r|] eqn:E; cbn; [|reflexivity].
  unfold setRecord. rewrite (matchRecordOf_name _ _ _ _ _ E). reflexivity.
Qed.

Lemma aggregate_app cw st e1 e2 f :
  aggregate cw st (e1 ++ e2) f = aggregate cw st e2 (aggregate cw st e1 f).
Proof. unfold aggregate. apply fold_left_app. Qed.

Lemma aggregate_FoundInv cw st ebs :
  FoundInv (writes cw st ebs) (aggregate cw st ebs []).
Proof.
  rewrite aggregate_writes. apply (FoundInv_fold [] _ _ FoundInv_nil).
Qed.

(** C5: the aggregated list has one record per element name written,
    and that record is the last one written for the name. *)
Theorem scan_one_record_per_name cw term ebs :
  let out := scan cw term ebs in
  let ws := writes cw (toLowerCase term) ebs in
  NoDup (map mr_name out) /\
  (forall n, In n (map mr_name out) <-> In n (map mr_name ws)) /\
  (forall r, In r out -> lastWrite (mr_name r) ws = Some r).
Proof.
  cbv zeta. unfold scan.
  pose proof (aggregate_FoundInv cw (toLowerCase term) ebs) as (Hnd & Hkv & Hkeys).
  set (F := aggregate cw (toLowerCase term) ebs []) in *.
  pose proof (sortByRelevance_perm (mapValues F)) as Hp.
  assert (Hnames : map mr_name (mapValues F) = map fst F).
  { unfold mapValues. rewrite map_map. apply map_ext_in.
    intros [k v] Hin. symmetry. apply (Hkv k v Hin). }
  split; [|split].
  - eapply Permutation_NoDup; [symmetry; apply Permutation_map, Hp|].
    rewrite Hnames. exact Hnd.
  - intro n. rewrite <- Hkeys, <- Hnames. split; intro H.
    + eapply Permutation_in; [apply Permutation_map, Hp|exact H].
    + eapply Permutation_in; [symmetry; apply Permutation_map, Hp|exact H].
  - intros r Hr. apply (Permutation_in _ Hp) in Hr.
    unfold mapValues in Hr. apply in_map_iff in Hr as [[k v] [Hv Hin]].
    cbn in Hv. subst v. destruct (Hkv k r Hin) as [-> Hl]. exact Hl.
Qed.

(** C6: the aggregated list is sorted by decreasing relevance; records of
    equal relevance keep the order of the found-elements map (the order
    in which their names were first found); the result of
    [findElementsByPattern] does not depend on the state it runs in. *)
Theorem scan_sorted_stable cw term ebs :
  let out := scan cw term ebs in
  Sorted relGe out /\
  (forall k, filter (relEq k) out =
             filter (relEq k) (mapValues (aggregate cw (toLowerCase term) ebs []))) /\
  (forall o q s s', result o (findElementsByPattern cw q) s =
                    result o (findElementsByPattern cw q) s').
Proof.
  cbv zeta. unfold scan. split; [|split].
  - apply StronglySorted_Sorted, sortByRelevance_sorted.
  - intro k. apply sortByRelevance_stable.
  - intros o q s s'. apply result_indep.
Qed.

(** ** From [findElementsByPattern] to [scan] *)

Lemma result_update {A} o f (k : Prog A) s : result o (Update f k) s = result o k (f s).
Proof. reflexivity. Qed.

Lemma result_sleep {A} o ms (k : Prog A) s : result o (Sleep ms k) s = result o k s.
Proof. reflexivity. Qed.

Lemma result_fetch {A} o r (k : _ -> Prog A) s :
  result o (Fetch r k) s = result o (k (o r)) s.
Proof.
  unfold result. cbn. destruct (exec o (k (o r)) s) as [[s1 tr] a]. reflexivity.
Qed.

Lemma batchLoop_result cw o st bs : forall i t c f s,
  exists E, result o (batchLoop cw st bs i t c f) s = aggregate cw st E f.
Proof.
  induction bs as [|b rest IH]; intros i t c f s.
  - exists []. reflexivity.
  - cbn [batchLoop]. rewrite result_update, result_bind.
    destruct (result o (fetchBatch c b c) _) as [results cache'].
    set (f' := aggregate cw st (filterSome results) f).
    set (s' := finalState o _ _).
    destruct (IH (S i) t cache' f' s') as [E HE].
    exists (filterSome results ++ E). rewrite aggregate_app.
    destruct (i <? t - 1); [rewrite result_sleep|]; exact HE.
Qed.

Lemma findElementsByPattern_scan cw o q s :
  result o (findElementsByPattern cw q) s = [] \/
  exists E, result o (findElementsByPattern cw q) s = scan cw q E.
Proof.
  unfold findElementsByPattern. rewrite result_update, !result_fetch.
  destruct (jsonAll _) as [arrs|].
  - right. rewrite result_update, result_bind.
    match goal with
    | |- context [result o (batchLoop cw ?st ?bs ?i ?t ?c ?f) ?s'] =>
        destruct (batchLoop_result cw o st bs i t c f s') as [E HE]; rewrite HE
    end.
    exists E. reflexivity.
  - left. reflexivity.
Qed.

Lemma writes_in cw st ebs r :
  In r (writes cw st ebs) -> exists sn el, matchRecordOf cw st sn el = Some r.
Proof.
  unfold writes. rewrite in_flat_map. intros [[sn els] [_ Hin]].
  rewrite in_flat_map in Hin. destruct Hin as [el [_ Hin]].
  destruct (matchRecordOf cw st sn el) as [r'|] eqn:E; [|destruct Hin].
  destruct Hin as [<-|[]]. eauto.
Qed.

Lemma matchRecordOf_relevance cw st sn el r :
  matchRecordOf cw st sn el = Some r -> (15 <= mr_relevance r)%Z.
Proof.
  unfold matchRecordOf. destruct (_ || _); [|discriminate].
  intro E. injection E as <-. cbn [mr_relevance]. unfold calculateRelevance.
  set (d := Z.abs _). pose proof (Z.le_min_r d 10).
  repeat match goal with |- context [if ?b then _ else _] => destruct b end; lia.
Qed.

Lemma fold_setRecord_in ws f k v :
  In (k, v) (fold_left setRecord ws f) -> In (k, v) f \/ In v ws.
Proof.
  revert f. induction ws as [|r ws IH]; intros f Hin; cbn [fold_left] in Hin; [left; exact Hin|].
  destruct (IH _ Hin) as [H|H]; [|right; right; exact H].
  destruct (mapSet_in_any _ _ _ _ _ H) as [->|H']; [right; left; reflexivity|left; exact H'].
Qed.

(** C10: every record [findElementsByPattern] returns has relevance at
    least 15 (base score at least 25, bonuses not negative, length penalty
    at most 10). *)
Theorem findElementsByPattern_relevance_floor cw o q s :
  Forall (fun r => (15 <= mr_relevance r)%Z) (result o (findElementsByPattern cw q) s).
Proof.
  destruct (findElementsByPattern_scan cw o q s) as [-> | [E ->]]; [constructor|].
  unfold scan. apply Forall_forall. intros r Hr.
  apply (Permutation_in _ (sortByRelevance_perm _)) in Hr.
  unfold mapValues in Hr. apply in_map_iff in Hr as [[k v] [Hv Hin]]. cbn in Hv. subst v.
  rewrite aggregate_writes in Hin.
  destruct (fold_setRecord_in _ _ _ _ Hin) as [[]|Hw].
  destruct (writes_in _ _ _ _ Hw) as [sn [el Hm]].
  eapply matchRecordOf_relevance, Hm.
Qed.

(** ** Requests of one [findElementsByPattern] call *)

Lemma trace_update {A} o f (k : Prog A) s : trace o (Update f k) s = trace o k (f s).
Proof. reflexivity. Qed.

Lemma trace_sleep {A} o ms (k : Prog A) s : trace o (Sleep ms k) s = trace o k s.
Proof. reflexivity. Qed.

Lemma trace_fetch {A} o r (k : _ -> Prog A) s :
  trace o (Fetch r k) s = r :: trace o (k (o r)) s.
Proof.
  unfold trace. cbn. destruct (exec o (k (o r)) s) as [[s1 tr] a]. reflexivity.
Qed.

Lemma structureFetches_app t1 t2 :
  structureFetches (t1 ++ t2) = structureFetches t1 ++ structureFetches t2.
Proof. apply flat_map_app. Qed.

Lemma structureFetches_cons_struct n t :
  structureFetches (GetDataStructure n :: t) = n :: structureFetches t.
Proof. reflexivity. Qed.

Lemma count_occ_structureFetches tr id :
  count_occ Req_eq_dec tr (GetDataStructure id) =
  count_occ string_dec (structureFetches tr) id.
Proof.
  induction tr as [|r tr IH]; [reflexivity|].
  cbn [count_occ structureFetches flat_map].
  destruct r as [n|t|c|n]; cbn [app];
    destruct (Req_eq_dec _ _) as [E|E]; try discriminate; try exact IH.
  - injection E as ->. cbn. destruct (string_dec id id); [rewrite IH; reflexivity|congruence].
  - cbn. destruct (string_dec n id); [congruence|exact IH].
Qed.

Lemma fetchBatch_fetches o cache0 batch : forall cache s,
  structureFetches (trace o (fetchBatch cache0 batch cache) s) =
  filter (notCached cache0) batch.
Proof.
  induction batch as [|sn rest IH]; intros cache s; [reflexivity|].
  cbn [fetchBatch filter]. unfold notCached at 1.
  destruct (mapGet cache0 sn) as [els|].
  - rewrite trace_bind, structureFetches_app, IH. destruct (result _ _ _). 
    rewrite app_nil_r. reflexivity.
  - rewrite trace_fetch, structureFetches_cons_struct.
    destruct (handleStructureResponse sn _ cache) as [res cache1].
    rewrite trace_bind, structureFetches_app, IH. destruct (result _ _ _).
    rewrite app_nil_r. reflexivity.
Qed.

Lemma NoDup_app_disjoint {X} (l1 l2 : list X) a :
  NoDup (l1 ++ l2) -> In a l1 -> ~ In a l2.
Proof.
  induction l1 as [|x l1 IH]; intros Hnd Hin; [destruct Hin|].
  inversion Hnd as [|? ? Hx Hnd']; subst.
  destruct Hin as [<-|Hin]; [|apply IH; assumption].
  intro H. apply Hx, in_or_app. right. exact H.
Qed.

Lemma batchLoop_fetches cw o st bs : forall i t c f s,
  NoDup (List.concat bs) ->
  NoDup (structureFetches (trace o (batchLoop cw st bs i t c f) s)) /\
  incl (structureFetches (trace o (batchLoop cw st bs i t c f) s)) (List.concat bs).
Proof.
  induction bs as [|b rest IH]; intros i t c f s Hnd.
  - split; [constructor|intros a []].
  - cbn [batchLoop List.concat] in *. rewrite trace_update, trace_bind, structureFetches_app.
    rewrite fetchBatch_fetches.
    destruct (result o (fetchBatch c b c) _) as [results cache'].
    set (f' := aggregate cw st (filterSome results) f).
    set (s' := finalState o _ _).
    assert (Hrest : NoDup (structureFetches (trace o (batchLoop cw st rest (S i) t cache' f') s')) /\
                    incl (structureFetches (trace o (batchLoop cw st rest (S i) t cache' f') s'))
                         (List.concat rest))
      by (apply IH; eapply NoDup_app_remove_l; exact Hnd).
    destruct Hrest as [Hnd2 Hincl2].
    assert (Hb : NoDup b) by (eapply NoDup_app_remove_r; exact Hnd).
    destruct (i <? t - 1); rewrite ?trace_sleep; split.
    + apply NoDup_app; [apply NoDup_filter, Hb|exact Hnd2|].
      intros a Ha1 Ha2. apply filter_In in Ha1 as [Ha1 _].
      exact (NoDup_app_disjoint _ _ _ Hnd Ha1 (Hincl2 _ Ha2)).
    + intros a Ha. apply in_app_or in Ha as [Ha|Ha]; apply in_or_app.
      * left. apply filter_In in Ha as [Ha _]. exact Ha.
      * right. apply Hincl2, Ha.
    + apply NoDup_app; [apply NoDup_filter, Hb|exact Hnd2|].
      intros a Ha1 Ha2. apply filter_In in Ha1 as [Ha1 _].
      exact (NoDup_app_disjoint _ _ _ Hnd Ha1 (Hincl2 _ Ha2)).
    + intros a Ha. apply in_app_or in Ha as [Ha|Ha]; apply in_or_app.
      * left. apply filter_In in Ha as [Ha _]. exact Ha.
      * right. apply Hincl2, Ha.
Qed.

Lemma unique_nodup xs : NoDup (unique xs).
Proof.
  unfold unique. apply NoDup_rev.
  assert (H : forall acc, NoDup acc ->
            NoDup (fold_left (fun acc x => if existsb (String.eqb x) acc then acc
                                           else x :: acc) xs acc)).
  { induction xs as [|x xs IH]; intros acc Hacc; cbn [fold_left]; [exact Hacc|].
    apply IH. destruct (existsb (String.eqb x) acc) eqn:E; [exact Hacc|].
    constructor; [|exact Hacc]. intro Hin.
    assert (existsb (String.eqb x) acc = true)
      by (apply existsb_exists; exists x; split; [exact Hin|apply String.eqb_refl]).
    congruence. }
  apply H. constructor.
Qed.

Lemma concat_chunks fuel n xs :
  List.length xs <= fuel -> 0 < n -> List.concat (chunks fuel n xs) = xs.
Proof.
  revert xs. induction fuel as [|fuel IH]; intros xs Hlen Hn.
  - destruct xs; [reflexivity|cbn in Hlen; lia].
  - cbn [chunks]. destruct xs as [|x xs']; [reflexivity|].
    cbn [List.concat]. rewrite IH; [apply firstn_skipn| |exact Hn].
    rewrite length_skipn. cbn [List.length] in *. lia.
Qed.

Lemma findElementsByPattern_fetches cw o q s :
  NoDup (structureFetches (trace o (findElementsByPattern cw q) s)).
Proof.
  unfold findElementsByPattern. rewrite trace_update, !trace_fetch.
  cbn [structureFetches flat_map app].
  destruct (jsonAll _) as [arrs|]; [|constructor].
  rewrite trace_update, trace_bind, structureFetches_app.
  match goal with
  | |- context [trace o (batchLoop cw ?st ?bs ?i ?t ?c ?f) ?s'] =>
      destruct (batchLoop_fetches cw o st bs i t c f s') as [Hnd _]
  end.
  - unfold batchesOf. rewrite concat_chunks; [apply unique_nodup|lia|unfold batchSize; lia].
  - rewrite app_nil_r. exact Hnd.
Qed.

Lemma handleStructureResponse_small sn r cache :
  CacheSmall cache -> CacheSmall (snd (handleStructureResponse sn r cache)).
Proof.
  unfold CacheSmall. intro H.
  unfold handleStructureResponse.
  destruct r as [msg| |[msg|[l|]]]; cbn [snd]; try exact H.
  destruct (Nat.ltb_spec (List.length l) 1000) as [Hl|Hl]; [|exact H].
  apply Forall_forall. intros [k v] Hin.
  destruct (mapSet_in_any _ _ _ _ _ Hin) as [->|Hin']; [exact Hl|].
  rewrite Forall_forall in H. exact (H _ Hin').
Qed.

Lemma fetchBatch_small o cache0 batch : forall cache s,
  CacheSmall cache -> CacheSmall (snd (result o (fetchBatch cache0 batch cache) s)).
Proof.
  induction batch as [|sn rest IH]; intros cache s H; [exact H|].
  cbn [fetchBatch]. destruct (mapGet cache0 sn) as [els|].
  - rewrite result_bind. specialize (IH cache s H).
    destruct (result o (fetchBatch cache0 rest cache) s) as [rs c]. exact IH.
  - rewrite result_fetch.
    pose proof (handleStructureResponse_small sn (o (GetDataStructure sn)) cache H) as H1.
    destruct (handleStructureResponse sn _ cache) as [res cache1]. cbn in H1.
    rewrite result_bind. specialize (IH cache1 s H1).
    destruct (result o (fetchBatch cache0 rest cache1) s) as [rs c]. exact IH.
Qed.

(** The query ["zzz"] finds nothing and is not added to the history. *)
Lemma handlePartialSearch_no_match_not_recorded :
  let s' := finalState oracleNotOk (handlePartialSearch containsWordFragment (stateWith "zzz"))
                       (stateWith "zzz") in
  error s' = Some (noMatchMessage "zzz") /\ ~ In "zzz" (recentSearches s').
Proof. split; vm_compute; [reflexivity|intros []]. Qed.

Lemma handlePartialSearch_no_match_witness :
  let s' := finalState oracleNotOk (handlePartialSearch containsWordFragment (stateWith "zzz"))
                       (stateWith "zzz") in
  error s' = Some (noMatchMessage (searchTerm (stateWith "zzz"))) /\
  includes (noMatchMessage (searchTerm (stateWith "zzz"))) (searchTerm (stateWith "zzz")) = true /\
  loading s' = false /\ element s' = None /\ matchingElements s' = [] /\
  recentSearches s' = recentSearches (stateWith "zzz").
Proof.
  apply (handlePartialSearch_no_match containsWordFragment oracleNotOk (stateWith "zzz")
           (stateWith "zzz")).
  - intro H. vm_compute in H. discriminate H.
  - reflexivity.
  - vm_compute. reflexivity.
Defined.

Lemma handleSearch_blank_noop_witness :
  handleSearch containsWordFragment (stateWith "  ") = Ret tt /\
  forall o s, exec o (handleSearch containsWordFragment (stateWith "  ")) s = (s, [], tt).
Proof.
  apply (handleSearch_blank_noop containsWordFragment (stateWith "  ")).
  repeat constructor.
Defined.

(** Search A (["aaa"]) is suspended at its first request; search B
    (["bbb"]) runs to its end and shows its no-match error; A then resumes
    and writes its two matches next to B's error. *)
Lemma handleSearch_stale_results_shown :
  let s1 := fst (runSlice oracleS1 (handleSearch containsWordFragment (stateWith "aaa"))
                          (stateWith "aaa")) in
  let kA := snd (runSlice oracleS1 (handleSearch containsWordFragment (stateWith "aaa"))
                          (stateWith "aaa")) in
  let s2 := finalState oracleS1 (handleSearch containsWordFragment (stateWith "bbb")) s1 in
  let s3 := finalState oracleS1 kA s2 in
  matchingElements s2 = [] /\ error s2 = Some (noMatchMessage "bbb") /\
  error s3 = Some (noMatchMessage "bbb") /\
  List.map mr_name (matchingElements s3) = ["aaa_x"; "y"].
Proof. vm_compute. repeat split. Qed.

Lemma handleSearch_no_cancellation_witness :
  let s1 := fst (runSlice oracleS1 (handleSearch containsWordFragment (stateWith "aaa"))
                          (stateWith "aaa")) in
  let kA := snd (runSlice oracleS1 (handleSearch containsWordFragment (stateWith "aaa"))
                          (stateWith "aaa")) in
  let s2 := finalState oracleS1 (handleSearch containsWordFragment (stateWith "bbb")) s1 in
  let s3 := finalState oracleS1 kA s2 in
  matchingElements s3 = result oracleS1 (findElementsByPattern containsWordFragment "aaa")
                               (stateWith "aaa") /\
  error s3 = error s2 /\ loading s3 = false.
Proof.
  apply (handleSearch_no_cancellation containsWordFragment oracleS1 (stateWith "aaa")
           (stateWith "bbb") (stateWith "aaa")).
  - intro H. vm_compute in H. discriminate H.
  - reflexivity.
  - reflexivity.
  - apply Nat.leb_le. vm_compute. reflexivity.
Defined.

(** C4 (code bug): [containsWord] puts the query into the pattern
    [\b<query>\b] without escaping it, so the query is read as a regular
    expression: ["a.c"] matches the word ["abc"], although neither ["a.c"]
    nor ["a.cs"] occurs in it, and the search reports ["abc"]. The word
    boundaries themselves work: ["tap"] and ["taps"] do not match inside
    ["tapping"], and ["taps"] is one of the words searched for ["tap"]. *)
Theorem containsWord_query_not_escaped :
  containsWord "abc" "a.c" = Some true /\
  includes "abc" "a.c" = false /\ includes "abc" "a.cs" = false /\
  searchWords "a.c" = ["a.c"; "a.cs"] /\
  List.map mr_name (scan containsWordFragment "a.c" [("S", [el "abc" ""])]) = ["abc"] /\
  searchWords "tap" = ["tap"; "taps"] /\
  containsWord "finger tapping test" "tap" = Some false /\
  containsWord "finger tapping test" "taps" = Some false /\
  containsWord "taps" "taps" = Some true.
Proof. vm_compute. repeat split. Qed.

(** ** Further properties of the match-type score *)

Lemma length_toLowerCase s : String.length (toLowerCase s) = String.length s.
Proof. induction s as [|c s IH]; cbn; [reflexivity|now rewrite IH]. Qed.

Lemma prefix_refl s : String.prefix s s = true.
Proof.
  induction s as [|c s IH]; [reflexivity|]. cbn.
  destruct (ascii_dec c c); [exact IH|contradiction].
Qed.

(** The match-type score lies between 15 and 175; it is 175 exactly for a
    match in name and description whose name equals the query ignoring
    case. *)
Theorem calculateRelevance_range e q mt :
  (15 <= calculateRelevance e q mt <= 175)%Z /\
  (calculateRelevance e q mt = 175%Z -> mt = Both /\ toLowerCase (name e) = q) /\
  (mt = Both -> toLowerCase (name e) = q -> String.length (name e) = String.length q ->
   calculateRelevance e q mt = 175%Z).
Proof.
  unfold calculateRelevance. cbv zeta.
  set (d := Z.abs _).
  assert (Hd0 : (0 <= d)%Z) by apply Z.abs_nonneg.
  pose proof (Z.le_min_r d 10). pose proof (Z.min_glb d 10 0 Hd0 ltac:(lia)).
  destruct (String.eqb_spec (toLowerCase (name e)) q) as [E|E].
  - assert (Hz : d = 0%Z).
    { unfold d. rewrite <- E, length_toLowerCase. rewrite Z.sub_diag. reflexivity. }
    unfold startsWith. rewrite <- E, prefix_refl. rewrite Hz. cbn [Z.min].
    destruct mt; (split; [lia|]); split; intro H'; try (split; reflexivity);
      try discriminate; intros; try reflexivity; discriminate.
  - destruct (startsWith _ _); destruct mt; (split; [lia|]); split;
      try (intro H'; lia); intros _ H'; contradiction.
Qed.

End V2Facts.

Module HighlightFacts.
Import V2 Highlight.
Local Open Scope list_scope.

Lemma list_ascii_of_string_app a b :
  list_ascii_of_string (a ++ b)%string = list_ascii_of_string a ++ list_ascii_of_string b.
Proof. induction a as [|c a IH]; cbn; [reflexivity|now rewrite IH]. Qed.

Lemma string_of_list_ascii_app l1 l2 :
  string_of_list_ascii (l1 ++ l2) = (string_of_list_ascii l1 ++ string_of_list_ascii l2)%string.
Proof. induction l1 as [|c l1 IH]; cbn; [reflexivity|now rewrite IH]. Qed.

Lemma toLowerCase_list s :
  toLowerCase s = string_of_list_ascii (map lowerChar (list_ascii_of_string s)).
Proof. induction s as [|c s IH]; cbn; [reflexivity|now rewrite IH]. Qed.

Lemma not_escaped_plain c :
  isEscaped c = false ->
  Ascii.eqb c ")" = false /\ Ascii.eqb c "|" = false /\ Ascii.eqb c "\" = false /\
  Ascii.eqb c "." = false /\ isRegexSyntax c = false.
Proof.
  unfold isEscaped. intro H. apply orb_false_iff in H as [Hd Hs].
  repeat split; try assumption;
    destruct (Ascii.eqb_spec c ")"), (Ascii.eqb_spec c "|"), (Ascii.eqb_spec c "\");
    subst; try reflexivity; discriminate Hs.
Qed.

Lemma parseAlts_escaped w : forall r cur alts,
  parseAlts (escapeChars w ++ r) cur alts = parseAlts r (rev (map Lit w) ++ cur) alts.
Proof.
  induction w as [|c w IH]; intros r cur alts; [reflexivity|].
  cbn [escapeChars map rev]. rewrite <- app_assoc. cbn [app].
  destruct (isEscaped c) eqn:E.
  - cbn [parseAlts app]. cbn - [isEscaped]. rewrite E. apply IH.
  - destruct (not_escaped_plain c E) as (H1 & H2 & H3 & H4 & H5).
    cbn [parseAlts app]. rewrite H1, H2, H3, H4, H5. apply IH.
Qed.

Lemma parseAlts_join terms : forall alts r,
  terms <> [] ->
  parseAlts (list_ascii_of_string (String.concat "|" (map escapeRegExp terms)) ++ ")"%char :: r)
            [] alts = Some (rev alts ++ map litAlt terms, r).
Proof.
  induction terms as [|t ts IH]; intros alts r Hne; [contradiction|].
  destruct ts as [|t' ts'].
  - cbn [map String.concat]. unfold escapeRegExp.
    rewrite list_ascii_of_string_of_list_ascii, parseAlts_escaped. cbn.
    rewrite app_nil_r, rev_involutive. reflexivity.
  - change (String.concat "|" (map escapeRegExp (t :: t' :: ts')))
      with (escapeRegExp t ++ "|" ++ String.concat "|" (map escapeRegExp (t' :: ts')))%string.
    rewrite !list_ascii_of_string_app. unfold escapeRegExp at 1.
    rewrite list_ascii_of_string_of_list_ascii, <- app_assoc, parseAlts_escaped.
    cbn. rewrite app_nil_r, rev_involutive, IH by discriminate.
    cbn. rewrite <- app_assoc. reflexivity.
Qed.

(** The pattern of the first [highlightSearchTerm] always compiles: its
    alternatives are the search terms, as literals. *)
Lemma compileGroup_escaped terms :
  terms <> [] ->
  compileGroup ("(" ++ String.concat "|" (map escapeRegExp terms) ++ ")")%string =
  Some (map litAlt terms).
Proof.
  intro Hne. unfold compileGroup.
  rewrite list_ascii_of_string_app. cbn [list_ascii_of_string app Ascii.eqb].
  rewrite list_ascii_of_string_app. cbn [list_ascii_of_string].
  rewrite parseAlts_join by exact Hne. reflexivity.
Qed.

Lemma matchAt_width a t q :
  q <= List.length t -> matchAt a t q = true -> q + width a <= List.length t.
Proof.
  revert q. induction a as [|x a IH]; intros q Hq H; cbn in *; [lia|].
  destruct x as [ | | c].
  - apply andb_prop in H as [_ H]. apply IH; assumption.
  - destruct (nth_error t q) eqn:E; [|discriminate].
    assert (q < List.length t) by (apply nth_error_Some; congruence).
    apply andb_prop in H as [_ H]. specialize (IH (S q) ltac:(lia) H). lia.
  - destruct (nth_error t q) eqn:E; [|discriminate].
    assert (q < List.length t) by (apply nth_error_Some; congruence).
    apply andb_prop in H as [_ H]. specialize (IH (S q) ltac:(lia) H). lia.
Qed.

Lemma skipn_nth_error {X} (t : list X) q d :
  nth_error t q = Some d -> skipn q t = d :: skipn (S q) t.
Proof.
  revert t. induction q as [|q IH]; intros [|x t] E; cbn in *; try discriminate.
  - injection E as ->. reflexivity.
  - apply IH, E.
Qed.

Lemma firstAlt_some alts t q e :
  firstAlt alts t q = Some e ->
  exists a, In a alts /\ matchAt a t q = true /\ e = q + width a.
Proof.
  induction alts as [|a alts IH]; cbn; [discriminate|].
  destruct (matchAt a t q) eqn:M; intro H.
  - injection H as <-. exists a. auto.
  - destruct (IH H) as (a' & ? & ? & ?). exists a'. auto.
Qed.

Lemma firstn_skipn_join (t : list ascii) p q :
  p <= q -> firstn (q - p) (skipn p t) ++ skipn q t = skipn p t.
Proof.
  intro H. replace (skipn q t) with (skipn (q - p) (skipn p t)).
  - apply firstn_skipn.
  - rewrite skipn_skipn. f_equal. lia.
Qed.

Lemma splitLoop_concat alts t fuel : forall p q,
  p <= q -> List.concat (splitLoop alts t fuel p q) = skipn p t.
Proof.
  induction fuel as [|f IH]; intros p q Hpq; cbn [splitLoop]; [apply app_nil_r|].
  destruct (Nat.ltb_spec q (List.length t)) as [Hq|Hq]; [|apply app_nil_r].
  destruct (firstAlt alts t q) as [e|] eqn:E; [|apply IH; lia].
  destruct (Nat.eqb_spec e p); [apply IH; lia|].
  destruct (firstAlt_some _ _ _ _ E) as (a & _ & M & ->).
  pose proof (matchAt_width a t q ltac:(lia) M).
  cbn [List.concat]. rewrite IH by lia.
  rewrite (firstn_skipn_join t q (q + width a)) by lia. apply firstn_skipn_join. lia.
Qed.

Lemma splitLoop_captures alts t fuel : forall p q,
  oddAll (isCapture alts t) (splitLoop alts t fuel p q).
Proof.
  induction fuel as [|f IH]; intros p q; cbn [splitLoop]; [exact I|].
  destruct (q <? List.length t); [|exact I].
  destruct (firstAlt alts t q) as [e|] eqn:E; [|apply IH].
  destruct (e =? p); [apply IH|].
  cbn [oddAll]. split; [|apply IH].
  destruct (firstAlt_some _ _ _ _ E) as (a & Ha & M & ->).
  exists a, q. split; [exact Ha|split; [exact M|]]. f_equal. lia.
Qed.

Lemma oddAll_map {X Y} (P : Y -> Prop) (f : X -> Y) l :
  oddAll (fun x => P (f x)) l -> oddAll P (map f l).
Proof.
  revert l. fix IH 1. intros [|a [|b l]] H; cbn in *; try exact I.
  destruct H as [Hb Hl]. split; [exact Hb|]. apply IH, Hl.
Qed.

Lemma oddAll_impl {X} (P Q : X -> Prop) l :
  (forall x, P x -> Q x) -> oddAll P l -> oddAll Q l.
Proof.
  intro HPQ. revert l. fix IH 1. intros [|a [|b l]] H; cbn in *; try exact I.
  destruct H as [Hb Hl]. split; [apply HPQ, Hb|]. apply IH, Hl.
Qed.

Lemma oddAll_nth {X} (P : X -> Prop) l i x :
  oddAll P l -> nth_error l (2 * i + 1) = Some x -> P x.
Proof.
  revert l. induction i as [|i IH]; intros l H Hn.
  - destruct l as [|a [|b l']]; cbn in Hn; try discriminate.
    injection Hn as <-. apply H.
  - replace (2 * S i + 1) with (S (S (2 * i + 1))) in Hn by lia.
    destruct l as [|a [|b l']]; cbn in Hn; try discriminate.
    cbn in H. apply (IH l'); [apply H|exact Hn].
Qed.

Lemma matchAt_lit_lower w : forall t q,
  matchAt (map Lit w) t q = true ->
  map lowerChar (firstn (List.length w) (skipn q t)) = map lowerChar w.
Proof.
  induction w as [|c w IH]; intros t q H; [reflexivity|].
  cbn [map matchAt] in H. destruct (nth_error t q) as [d|] eqn:E; [|discriminate].
  apply andb_prop in H as [Hc H]. apply Ascii.eqb_eq in Hc.
  rewrite (skipn_nth_error t q d E). cbn [List.length firstn map].
  rewrite Hc, (IH t (S q) H). reflexivity.
Qed.

Lemma fold_right_append_parts L :
  fold_right String.append "" (map string_of_list_ascii L) = string_of_list_ascii (List.concat L).
Proof.
  induction L as [|l L IH]; [reflexivity|].
  cbn [map fold_right List.concat]. rewrite IH, string_of_list_ascii_app. reflexivity.
Qed.

Lemma width_litAlt w : width (map Lit w) = List.length w.
Proof. induction w as [|c w IH]; cbn; [reflexivity|now rewrite IH]. Qed.

Lemma capture_lower t cap w :
  isCapture [map Lit w] t cap \/ (exists a q, a = map Lit w /\ matchAt a t q = true /\
                                   cap = firstn (width a) (skipn q t)) ->
  toLowerCase (string_of_list_ascii cap) = toLowerCase (string_of_list_ascii w).
Proof.
  intros [(a & q & Ha & M & ->)|(a & q & -> & M & ->)].
  - destruct Ha as [<-|[]].
    rewrite !toLowerCase_list, !list_ascii_of_string_of_list_ascii, width_litAlt.
    rewrite (matchAt_lit_lower w t q M). reflexivity.
  - rewrite !toLowerCase_list, !list_ascii_of_string_of_list_ascii, width_litAlt.
    rewrite (matchAt_lit_lower w t q M). reflexivity.
Qed.

Lemma regexSplit_nonempty alts text :
  text <> ""%string ->
  regexSplit alts text =
  map string_of_list_ascii
      (splitLoop alts (list_ascii_of_string text)
                 (2 * List.length (list_ascii_of_string text) + 1) 0 0).
Proof.
  intro H. unfold regexSplit. destruct text as [|c text]; [contradiction|]. reflexivity.
Qed.

Lemma regexSplit_concat alts text :
  text <> ""%string -> fold_right String.append "" (regexSplit alts text) = text.
Proof.
  intro H. rewrite regexSplit_nonempty by exact H.
  rewrite fold_right_append_parts, splitLoop_concat by lia.
  apply string_of_list_ascii_of_string.
Qed.

Lemma map_snd_pair {X} (f : string -> X) l :
  map snd (map (fun part => (f part, part)) l) = l.
Proof. induction l as [|x l IH]; cbn; [reflexivity|now rewrite IH]. Qed.

Lemma eqb_false_neq a b : a <> b -> String.eqb a b = false.
Proof. intro H. destruct (String.eqb_spec a b); [contradiction|reflexivity]. Qed.

Lemma ascii_enum a : In a (map ascii_of_nat (seq 0 256)).
Proof.
  rewrite <- (ascii_nat_embedding a). apply in_map, in_seq.
  pose proof (nat_ascii_bounded a). lia.
Qed.

Lemma lowerChar_canonicalize_table :
  forallb (fun a => forallb (fun b =>
    Bool.eqb (Ascii.eqb (lowerChar a) (lowerChar b))
             (Nat.eqb (canonicalize a) (canonicalize b)))
    (map ascii_of_nat (seq 0 256))) (map ascii_of_nat (seq 0 256)) = true.
Proof. vm_compute. reflexivity. Qed.

(** On Latin-1 characters the case folding of [toLowerCase] identifies
    the same characters as the [Canonicalize] of the [i] flag. *)
Lemma lowerChar_canonicalize a b :
  lowerChar a = lowerChar b <-> canonicalize a = canonicalize b.
Proof.
  pose proof lowerChar_canonicalize_table as T.
  rewrite forallb_forall in T. specialize (T a (ascii_enum a)).
  rewrite forallb_forall in T. specialize (T b (ascii_enum b)).
  destruct (Ascii.eqb_spec (lowerChar a) (lowerChar b));
    destruct (Nat.eqb_spec (canonicalize a) (canonicalize b)); cbn in T;
    try discriminate; tauto.
Qed.

(** The first [highlightSearchTerm]: for a non-empty text and at least
    one search term, the pattern always compiles (the [catch] is never
    taken), the parts put together give back the text, and every match
    of the pattern (the parts at odd positions) is highlighted.  Text and
    terms are Latin-1 strings, on which the [i] flag and [toLowerCase]
    fold case alike ([lowerChar_canonicalize]); a match such as the micro
    sign against the Greek mu, equal only under [Canonicalize], needs
    characters above U+00FF. *)
Theorem highlightSearchTerm_parts text terms :
  text <> ""%string -> terms <> [] ->
  exists ps, highlightSearchTerm text terms = Some (Parts ps) /\
    fold_right String.append "" (map snd ps) = text /\
    (forall i b part, nth_error ps (2 * i + 1) = Some (b, part) -> b = true).
Proof.
  intros Ht Hterms. unfold highlightSearchTerm.
  rewrite (eqb_false_neq _ _ Ht).
  assert (E0 : (List.length terms =? 0) = false)
    by (destruct terms; [contradiction|reflexivity]).
  rewrite E0. cbn [orb].
  rewrite compileGroup_escaped by exact Hterms.
  eexists. split; [reflexivity|]. split.
  - rewrite map_snd_pair. apply regexSplit_concat, Ht.
  - intros i b part Hn.
    rewrite regexSplit_nonempty in Hn by exact Ht.
    set (L := splitLoop _ _ _ _ _) in Hn.
    assert (HL : oddAll (isCapture (map litAlt terms) (list_ascii_of_string text)) L)
      by apply splitLoop_captures.
    refine (oddAll_nth (fun bp => fst bp = true) _ i (b, part) _ Hn).
    apply oddAll_map, oddAll_map. revert HL. apply oddAll_impl.
    intros cap (a & q & Ha & M & Ecap). cbn [fst].
    apply in_map_iff in Ha as (term & <- & Hin).
    apply existsb_exists. exists term. split; [exact Hin|].
    apply String.eqb_eq.
    rewrite <- (string_of_list_ascii_of_string term).
    apply (capture_lower (list_ascii_of_string text) cap (list_ascii_of_string term)).
    right. exists (litAlt term), q. auto.
Qed.

Lemma escapeChars_plain w :
  forallb (fun c => negb (isEscaped c)) w = true -> escapeChars w = w.
Proof.
  induction w as [|c w IH]; intro H; [reflexivity|].
  cbn in H. apply andb_prop in H as [Hc H]. cbn [escapeChars].
  destruct (isEscaped c); [discriminate|]. rewrite IH by exact H. reflexivity.
Qed.

(** [escapeRegExp] (lines 45-47): the pattern [(${escapeRegExp(s)})]
    always compiles, to the characters of [s] as literals; a string
    without special characters is left as it is. *)
Theorem escapeRegExp_literal s :
  compileGroup ("(" ++ escapeRegExp s ++ ")")%string = Some [litAlt s] /\
  (forallb (fun c => negb (isEscaped c)) (list_ascii_of_string s) = true ->
   escapeRegExp s = s).
Proof.
  split.
  - exact (compileGroup_escaped [s] ltac:(discriminate)).
  - intro H. unfold escapeRegExp. rewrite escapeChars_plain by exact H.
    apply string_of_list_ascii_of_string.
Qed.

(** The second [highlightSearchTerm], for a non-empty Latin-1 text and a
    non-empty term without regular expression syntax: the pattern
    compiles to the term itself (the [catch] is not taken), the parts put
    together give back the text, and every match of the pattern is
    highlighted.  (A term with syntax, such as ["(b)"] or ["("], may split
    differently or throw, and is not covered.) *)
Theorem highlightSearchTermV2_parts text term :
  text <> ""%string -> term <> ""%string -> noRegexSpecial term = true ->
  exists ps, highlightSearchTermV2 text term = Some (Parts ps) /\
    fold_right String.append "" (map snd ps) = text /\
    (forall i b part, nth_error ps (2 * i + 1) = Some (b, part) -> b = true).
Proof.
  intros Ht Hterm Hplain. unfold noRegexSpecial in Hplain. unfold highlightSearchTermV2.
    rewrite (eqb_false_neq _ _ Ht), (eqb_false_neq _ _ Hterm). cbn [orb].
    assert (Hc : compileGroup ("(" ++ term ++ ")")%string = Some [litAlt term]).
    { pose proof (compileGroup_escaped [term] ltac:(discriminate)) as Hc.
      cbn [map String.concat] in Hc. unfold escapeRegExp in Hc.
      rewrite escapeChars_plain, string_of_list_ascii_of_string in Hc by exact Hplain.
      exact Hc. }
    rewrite Hc. eexists. split; [reflexivity|]. split.
    { rewrite map_snd_pair. apply regexSplit_concat, Ht. }
    intros i b part Hn.
    rewrite regexSplit_nonempty in Hn by exact Ht.
    set (L := splitLoop _ _ _ _ _) in Hn.
    assert (HL : oddAll (isCapture [litAlt term] (list_ascii_of_string text)) L)
      by apply splitLoop_captures.
    refine (oddAll_nth (fun bp => fst bp = true) _ i (b, part) _ Hn).
    apply oddAll_map, oddAll_map. revert HL. apply oddAll_impl.
    intros cap Hcap. cbn [fst]. apply String.eqb_eq.
    rewrite <- (string_of_list_ascii_of_string term).
    apply (capture_lower (list_ascii_of_string text) cap (list_ascii_of_string term)).
    left. exact Hcap.
Qed.

Lemma highlightSearchTerm_parts_witness :
  "Age of subject"%string <> ""%string /\ ["age"%string] <> [] /\
  exists ps, highlightSearchTerm "Age of subject" ["age"] = Some (Parts ps) /\
    fold_right String.append "" (map snd ps) = "Age of subject"%string /\
    (forall i b part, nth_error ps (2 * i + 1) = Some (b, part) -> b = true).
Proof.
  assert (H1 : "Age of subject"%string <> ""%string) by discriminate.
  assert (H2 : ["age"%string] <> []) by discriminate.
  split; [exact H1|split; [exact H2|]].
  exact (highlightSearchTerm_parts "Age of subject" ["age"] H1 H2).
Defined.

Lemma highlightSearchTermV2_parts_witness :
  "Age of subject"%string <> ""%string /\ "age"%string <> ""%string /\
  noRegexSpecial "age" = true /\
  exists ps, highlightSearchTermV2 "Age of subject" "age" = Some (Parts ps) /\
    fold_right String.append "" (map snd ps) = "Age of subject"%string /\
    (forall i b part, nth_error ps (2 * i + 1) = Some (b, part) -> b = true).
Proof.
  assert (H1 : "Age of subject"%string <> ""%string) by discriminate.
  assert (H2 : "age"%string <> ""%string) by discriminate.
  assert (H3 : noRegexSpecial "age" = true) by reflexivity.
  split; [exact H1|split; [exact H2|split; [exact H3|]]].
  exact (highlightSearchTermV2_parts "Age of subject" "age" H1 H2 H3).
Defined.

End HighlightFacts.

Module V2HandlerFacts.
Import V2 V2Facts.
Local Open Scope list_scope.

Lemma finalState_ret {A} o (a : A) s : finalState o (Ret a) s = s.
Proof. reflexivity. Qed.

Lemma finalState_sleep {A} o ms (k : Prog A) s :
  finalState o (Sleep ms k) s = finalState o k s.
Proof. reflexivity. Qed.

Lemma finalState_recordRecent o snap t (k : Prog unit) s :
  finalState o (recordRecent snap t k) s =
  finalState o k (if existsb (String.eqb t) snap then s
                  else setRecentSearches (fun prev => firstn 10 (t :: prev)) s).
Proof. unfold recordRecent. destruct (existsb _ _); reflexivity. Qed.

Lemma trace_recordRecent o snap t (k : Prog unit) s :
  trace o (recordRecent snap t k) s =
  trace o k (if existsb (String.eqb t) snap then s
             else setRecentSearches (fun prev => firstn 10 (t :: prev)) s).
Proof. unfold recordRecent. destruct (existsb _ _); reflexivity. Qed.

Lemma finalState_finally o s : finalState o finallyBlock s = setLoading false s.
Proof. reflexivity. Qed.

Lemma trace_finally o s : trace o finallyBlock s = [].
Proof. reflexivity. Qed.

(** The exact lookup finds the element: it is shown, no pattern search is
    made, and the query goes to the front of the history (kept to 10
    entries) unless the render's history already holds it. *)
Theorem handlePartialSearch_exact_hit cw o st s data :
  trim (searchTerm st) <> ""%string ->
  o (GetDataElement (trim (searchTerm st))) = HttpOk (inr data) ->
  let q := trim (searchTerm st) in
  let s' := finalState o (handlePartialSearch cw st) s in
  trace o (handlePartialSearch cw st) s = [GetDataElement q] /\
  element s' = Some data /\ isPartialSearch s' = false /\ error s' = None /\
  matchingElements s' = [] /\ loading s' = false /\
  recentSearches s' = (if existsb (String.eqb q) (recentSearches st) then recentSearches s
                       else firstn 10 (q :: recentSearches s)).
Proof.
  intros Hq Ho. cbv zeta. unfold handlePartialSearch.
  destruct (String.eqb_spec (trim (searchTerm st)) "") as [E|_]; [contradiction|].
  rewrite !finalState_update, !trace_update, finalState_fetch, trace_fetch, Ho.
  cbv beta iota.
  rewrite !finalState_update, !trace_update, finalState_recordRecent, trace_recordRecent.
  destruct (existsb _ _); cbn; repeat split.
Qed.

(** The exact lookup rejects, or its body is not JSON: the search ends
    with the error [Error searching for elements: <message>], nothing
    shown and no further request. *)
Theorem handlePartialSearch_lookup_error cw o st s msg :
  trim (searchTerm st) <> ""%string ->
  (o (GetDataElement (trim (searchTerm st))) = NetError msg \/
   o (GetDataElement (trim (searchTerm st))) = HttpOk (inl msg)) ->
  let s' := finalState o (handlePartialSearch cw st) s in
  trace o (handlePartialSearch cw st) s = [GetDataElement (trim (searchTerm st))] /\
  error s' = Some ("Error searching for elements: " ++ msg)%string /\
  loading s' = false /\ element s' = None /\ matchingElements s' = [] /\
  isPartialSearch s' = true /\ recentSearches s' = recentSearches s.
Proof.
  intros Hq Ho. cbv zeta. unfold handlePartialSearch.
  destruct (String.eqb_spec (trim (searchTerm st)) "") as [E|_]; [contradiction|].
  rewrite !finalState_update, !trace_update, finalState_fetch, trace_fetch.
  destruct Ho as [Ho|Ho]; rewrite Ho; cbv beta iota; cbn; repeat split.
Qed.

Lemma fep_fields cw o q s :
  let s' := finalState o (findElementsByPattern cw q) s in
  searchTerm s' = searchTerm s /\ loading s' = loading s /\ error s' = error s /\
  element s' = element s /\ matchingElements s' = matchingElements s /\
  isPartialSearch s' = isPartialSearch s /\ recentSearches s' = recentSearches s.
Proof. apply core_fields, findElementsByPattern_core. Qed.

(** The exact lookup is not [ok] and the pattern search finds two or
    more elements: they are listed, no element is shown and the history
    is left as it was. *)
Theorem handlePartialSearch_many cw o st s :
  trim (searchTerm st) <> ""%string ->
  o (GetDataElement (trim (searchTerm st))) = HttpNotOk ->
  2 <= List.length (result o (findElementsByPattern cw (trim (searchTerm st))) s) ->
  let q := trim (searchTerm st) in
  let ms := result o (findElementsByPattern cw q) s in
  let s' := finalState o (handlePartialSearch cw st) s in
  trace o (handlePartialSearch cw st) s =
    GetDataElement q :: trace o (findElementsByPattern cw q) s /\
  matchingElements s' = ms /\ element s' = None /\ error s' = None /\
  loading s' = false /\ isPartialSearch s' = true /\ recentSearches s' = recentSearches s.
Proof.
  intros Hq Ho Hlen. cbv zeta. unfold handlePartialSearch.
  remember (trim (searchTerm st)) as q eqn:Eq.
  destruct (String.eqb_spec q "") as [E|_]; [contradiction|].
  rewrite !finalState_update, !trace_update, finalState_fetch, trace_fetch, Ho.
  cbv beta iota. rewrite finalState_bind, trace_bind.
  set (s1 := setElement None _).
  rewrite (result_indep o _ s1 s), (trace_indep o _ s1 s).
  destruct (fep_fields cw o q s1) as (F1 & F2 & F3 & F4 & F5 & F6 & F7).
  set (s2 := finalState o (findElementsByPattern cw q) s1) in *.
  destruct (result o (findElementsByPattern cw q) s) as [|m0 [|m1 rest]];
    cbn in Hlen; try lia.
  rewrite finalState_update, trace_update, finalState_finally, trace_finally, app_nil_r.
  cbn. rewrite F3, F4, F6, F7. cbn. repeat split.
Qed.

(** The exact lookup is not [ok] and the pattern search finds one
    element: its name is looked up; if that succeeds the element is
    shown and its name, not the query, goes into the history. *)
Theorem handlePartialSearch_single cw o st s m :
  trim (searchTerm st) <> ""%string ->
  o (GetDataElement (trim (searchTerm st))) = HttpNotOk ->
  result o (findElementsByPattern cw (trim (searchTerm st))) s = [m] ->
  let q := trim (searchTerm st) in
  let s' := finalState o (handlePartialSearch cw st) s in
  trace o (handlePartialSearch cw st) s =
    GetDataElement q :: trace o (findElementsByPattern cw q) s ++ [GetDataElement (mr_name m)] /\
  matchingElements s' = [m] /\ error s' = None /\ loading s' = false /\
  match o (GetDataElement (mr_name m)) with
  | HttpOk (inr data) =>
      element s' = Some data /\ isPartialSearch s' = false /\
      recentSearches s' = (if existsb (String.eqb (mr_name m)) (recentSearches st)
                           then recentSearches s
                           else firstn 10 (mr_name m :: recentSearches s))
  | _ => element s' = None /\ isPartialSearch s' = true /\ recentSearches s' = recentSearches s
  end.
Proof.
  intros Hq Ho Hres. cbv zeta. unfold handlePartialSearch.
  remember (trim (searchTerm st)) as q eqn:Eq.
  destruct (String.eqb_spec q "") as [E|_]; [contradiction|].
  rewrite !finalState_update, !trace_update, finalState_fetch, trace_fetch, Ho.
  cbv beta iota. rewrite finalState_bind, trace_bind.
  set (s1 := setElement None _).
  rewrite (result_indep o _ s1 s), (trace_indep o _ s1 s), Hres.
  destruct (fep_fields cw o q s1) as (F1 & F2 & F3 & F4 & F5 & F6 & F7).
  set (s2 := finalState o (findElementsByPattern cw q) s1) in *.
  rewrite finalState_update, trace_update, finalState_fetch, trace_fetch.
  destruct (o (GetDataElement (mr_name m))) as [msg'| |[msg'|data]];
    cbv beta iota; try (rewrite finalState_finally, trace_finally; cbn;
                        rewrite F3, F4, F6, F7; cbn; repeat split).
  rewrite !finalState_update, !trace_update, finalState_recordRecent, trace_recordRecent.
  destruct (existsb _ _); cbn; rewrite ?F3, ?F7; cbn; repeat split.
Qed.

Lemma NoDup_firstn {X} n (l : list X) : NoDup l -> NoDup (firstn n l).
Proof.
  intro H. rewrite <- (firstn_skipn n l) in H. eapply NoDup_app_remove_r. exact H.
Qed.

Lemma HistoryOk_record snap t h :
  snap = h -> HistoryOk h ->
  HistoryOk (if existsb (String.eqb t) snap then h else firstn 10 (t :: h)).
Proof.
  intros -> [Hnd Hlen]. destruct (existsb (String.eqb t) h) eqn:E; [split; assumption|].
  split.
  - apply NoDup_firstn. constructor; [|exact Hnd]. intro Hin.
    assert (existsb (String.eqb t) h = true)
      by (apply existsb_exists; exists t; split; [exact Hin|apply String.eqb_refl]).
    congruence.
  - rewrite length_firstn. lia.
Qed.

(** When the handler's render is up to date ([recentSearches] of the
    render is the current history), a search keeps the history free of
    duplicates and at most 10 entries long. *)
Theorem handleSearch_history_ok cw o st s :
  recentSearches st = recentSearches s ->
  NoDup (recentSearches s) -> List.length (recentSearches s) <= 10 ->
  let s' := finalState o (handleSearch cw st) s in
  NoDup (recentSearches s') /\ List.length (recentSearches s') <= 10.
Proof.
  intros Hsnap Hnd Hlen. cbv zeta. fold (HistoryOk (recentSearches s)) in *.
  change (HistoryOk (recentSearches (finalState o (handleSearch cw st) s))).
  assert (H0 : HistoryOk (recentSearches s)) by (split; assumption).
  unfold handleSearch, handlePartialSearch.
  remember (trim (searchTerm st)) as q eqn:Eq.
  destruct (String.eqb q ""); [exact H0|].
  rewrite !finalState_update, finalState_fetch.
  destruct (o (GetDataElement q)) as [msg| |[msg|data]]; cbv beta iota.
  - exact H0.
  - rewrite finalState_bind.
    set (s1 := setElement None _).
    destruct (fep_fields cw o q s1) as (F1 & F2 & F3 & F4 & F5 & F6 & F7).
    set (s2 := finalState o (findElementsByPattern cw q) s1) in *.
    destruct (result o (findElementsByPattern cw q) s1) as [|m0 [|m1 rest]].
    + cbn. rewrite F7. exact H0.
    + rewrite finalState_update, finalState_fetch.
      destruct (o (GetDataElement (mr_name m0))) as [msg'| |[msg'|data]]; cbv beta iota;
        try (cbn; rewrite F7; exact H0).
      rewrite !finalState_update, finalState_recordRecent, finalState_finally.
      pose proof (HistoryOk_record _ (mr_name m0) _ Hsnap H0) as HR.
      destruct (existsb _ _); cbn; rewrite F7; exact HR.
    + cbn. rewrite F7. exact H0.
  - exact H0.
  - rewrite !finalState_update, finalState_recordRecent.
    pose proof (HistoryOk_record _ q _ Hsnap H0) as HR.
    destruct (existsb _ _); cbn; exact HR.
Qed.

(** [handleRecentSearch]: the search it starts is the one for the search
    term of the render that created the handler, not for the term
    clicked.  With an empty term there it searches nothing. *)
Theorem handleRecentSearch_stale_term cw o st term s :
  (trim (searchTerm st) = ""%string ->
   trace o (handleRecentSearch cw st term) s = [] /\
   finalState o (handleRecentSearch cw st term) s = setSearchTerm term s) /\
  (trim (searchTerm st) <> ""%string ->
   hd_error (trace o (handleRecentSearch cw st term) s) =
   Some (GetDataElement (trim (searchTerm st)))).
Proof.
  unfold handleRecentSearch. rewrite trace_update, trace_sleep, finalState_update, finalState_sleep.
  unfold handleSearch.
  split; intro H.
  - rewrite H. split; reflexivity.
  - destruct (String.eqb_spec (trim (searchTerm st)) "") as [E|_]; [contradiction|].
    unfold handlePartialSearch.
    destruct (String.eqb_spec (trim (searchTerm st)) "") as [E|_]; [contradiction|].
    rewrite !trace_update, trace_fetch. reflexivity.
Qed.

(** [handleClear] does not stop a search in flight: when the exact lookup
    then succeeds, the element is shown under an empty search field;
    until then the cleared screen keeps [loading]. *)
Theorem handleClear_search_continues cw o st s0 data :
  trim (searchTerm st) <> ""%string ->
  o (GetDataElement (trim (searchTerm st))) = HttpOk (inr data) ->
  let s1 := fst (runSlice o (handleSearch cw st) s0) in
  let kA := snd (runSlice o (handleSearch cw st) s0) in
  let s2 := finalState o handleClear s1 in
  let s3 := finalState o kA s2 in
  loading s2 = true /\ element s2 = None /\
  searchTerm s3 = ""%string /\ element s3 = Some data /\ loading s3 = false /\
  isPartialSearch s3 = false.
Proof.
  intros Hq Ho. cbv zeta.
  unfold handleSearch, handlePartialSearch.
  remember (trim (searchTerm st)) as q eqn:Eq.
  destruct (String.eqb_spec q "") as [E|_]; [contradiction|].
  cbn [runSlice fst snd]. rewrite Ho. cbv beta iota.
  rewrite !finalState_update, finalState_recordRecent.
  destruct (existsb _ _); cbn; repeat split.
Qed.

(** Clicking a listed element: the list is cleared and partial mode
    left; the element's name is looked up, and only on success is an
    element shown (and the name recorded).  A failed lookup shows no
    error and no element beyond the one already there. *)
Theorem selectMatch_outcome o st s m :
  let s' := finalState o (selectMatch st m) s in
  trace o (selectMatch st m) s = [GetDataElement (mr_name m)] /\
  searchTerm s' = mr_name m /\ matchingElements s' = [] /\ isPartialSearch s' = false /\
  loading s' = loading s /\ error s' = error s /\
  match o (GetDataElement (mr_name m)) with
  | HttpOk (inr data) =>
      element s' = Some data /\
      recentSearches s' = (if existsb (String.eqb (mr_name m)) (recentSearches st)
                           then recentSearches s
                           else firstn 10 (mr_name m :: recentSearches s))
  | _ => element s' = element s /\ recentSearches s' = recentSearches s
  end.
Proof.
  cbv zeta. unfold selectMatch.
  rewrite !finalState_update, !trace_update, finalState_fetch, trace_fetch.
  destruct (o (GetDataElement (mr_name m))) as [msg| |[msg|data]]; cbv beta iota;
    try (cbn; repeat split; fail).
  rewrite !finalState_update, !trace_update, finalState_recordRecent, trace_recordRecent.
  destruct (existsb _ _); cbn; repeat split.
Qed.

Lemma fetchBatch_state o cache0 batch : forall cache s,
  finalState o (fetchBatch cache0 batch cache) s = s.
Proof.
  induction batch as [|sn rest IH]; intros cache s; [reflexivity|].
  cbn [fetchBatch]. destruct (mapGet cache0 sn) as [els|].
  - rewrite finalState_bind, IH. destruct (result _ _ _). reflexivity.
  - rewrite finalState_fetch. destruct (handleStructureResponse sn _ cache) as [res cache1].
    rewrite finalState_bind, IH. destruct (result _ _ _). reflexivity.
Qed.

Lemma batchLoop_loading cw o st bs : forall i t c f s,
  let ls := loadingState (finalState o (batchLoop cw st bs i t c f) s) in
  isLoading ls = isLoading (loadingState s) /\
  totalBatches ls = totalBatches (loadingState s) /\
  currentBatch ls = match bs with [] => currentBatch (loadingState s)
                                | _ => i + List.length bs end.
Proof.
  induction bs as [|b rest IH]; intros i t c f s; cbv zeta; [repeat split|].
  cbn [batchLoop]. rewrite finalState_update, finalState_bind, fetchBatch_state.
  destruct (result o (fetchBatch c b c) _) as [results cache'].
  set (s1 := setLoadingState _ s).
  destruct (IH (S i) t cache' (aggregate cw st (filterSome results) f) s1) as (H1 & H2 & H3).
  destruct (i <? t - 1); rewrite ?finalState_sleep; rewrite H1, H2, H3;
    cbn [List.length]; destruct rest; cbn; repeat split; lia.
Qed.

Lemma mapGet_notin {V} (m : list (string * V)) k :
  ~ In k (map fst m) -> mapGet m k = None.
Proof.
  induction m as [|[k' v] m IH]; intro H; [reflexivity|].
  cbn [mapGet]. cbn [map fst In] in H.
  destruct (String.eqb_spec k k') as [->|_]; [exfalso; apply H; left; reflexivity|].
  apply IH. intro H'. apply H. right. exact H'.
Qed.

Lemma handleStructureResponse_keys sn r cache k :
  In k (map fst (snd (handleStructureResponse sn r cache))) -> k = sn \/ In k (map fst cache).
Proof.
  unfold handleStructureResponse.
  destruct r as [msg| |[msg|[l|]]]; cbn [snd]; try (intro; right; assumption).
  destruct (List.length l <? 1000); [|intro; right; assumption].
  apply mapSet_keys.
Qed.

Lemma fetchBatch_keys o cache0 batch : forall cache s k,
  In k (map fst (snd (result o (fetchBatch cache0 batch cache) s))) ->
  In k (map fst cache) \/ In k batch.
Proof.
  induction batch as [|sn rest IH]; intros cache s k; [intro; left; assumption|].
  cbn [fetchBatch]. destruct (mapGet cache0 sn) as [els|].
  - rewrite result_bind. intro H.
    assert (H' : In k (map fst (snd (result o (fetchBatch cache0 rest cache) s))))
      by (destruct (result o (fetchBatch cache0 rest cache) s); exact H).
    destruct (IH _ _ _ H') as [Hk|Hk]; [left; exact Hk|right; right; exact Hk].
  - rewrite result_fetch. intro H.
    pose proof (handleStructureResponse_keys sn (o (GetDataStructure sn)) cache k) as Hh.
    destruct (handleStructureResponse sn _ cache) as [res cache1]. cbn [snd] in Hh.
    rewrite result_bind in H.
    assert (H' : In k (map fst (snd (result o (fetchBatch cache0 rest cache1) s))))
      by (destruct (result o (fetchBatch cache0 rest cache1) s); exact H).
    destruct (IH _ _ _ H') as [Hk|Hk].
    + destruct (Hh Hk) as [->|Hk']; [right; left; reflexivity|left; exact Hk'].
    + right; right; exact Hk.
Qed.

Lemma fetchBatch_trace_uncached o cache0 batch : forall cache s,
  (forall n, In n batch -> mapGet cache0 n = None) ->
  trace o (fetchBatch cache0 batch cache) s = map GetDataStructure batch.
Proof.
  induction batch as [|sn rest IH]; intros cache s H; [reflexivity|].
  cbn [fetchBatch map]. rewrite (H sn (or_introl eq_refl)), trace_fetch.
  destruct (handleStructureResponse sn _ cache) as [res cache1].
  rewrite trace_bind, IH by (intros n Hn; apply H; right; exact Hn).
  destruct (result _ _ _). rewrite app_nil_r. reflexivity.
Qed.

Lemma batchLoop_trace cw o st bs : forall i t c f s,
  NoDup (List.concat bs) ->
  (forall k, In k (map fst c) -> ~ In k (List.concat bs)) ->
  trace o (batchLoop cw st bs i t c f) s = map GetDataStructure (List.concat bs).
Proof.
  induction bs as [|b rest IH]; intros i t c f s Hnd Hc; [reflexivity|].
  cbn [batchLoop List.concat] in *. rewrite trace_update, trace_bind.
  rewrite fetchBatch_trace_uncached
    by (intros n Hn; apply mapGet_notin; intro Hk; apply (Hc n Hk), in_or_app; left; exact Hn).
  set (s1 := setLoadingState _ s).
  pose proof (fetchBatch_keys o c b c s1) as Hkeys.
  destruct (result o (fetchBatch c b c) s1) as [results cache']. cbn [snd] in Hkeys.
  assert (Hnd2 : NoDup (List.concat rest)) by (eapply NoDup_app_remove_l; exact Hnd).
  assert (Hc2 : forall k, In k (map fst cache') -> ~ In k (List.concat rest)).
  { intros k Hk. destruct (Hkeys k Hk) as [Hk'|Hk'].
    - intro Hr. apply (Hc k Hk'), in_or_app. right. exact Hr.
    - exact (NoDup_app_disjoint _ _ _ Hnd Hk'). }
  rewrite map_app. f_equal.
  destruct (i <? t - 1); rewrite ?trace_sleep; apply IH; assumption.
Qed.

Lemma fep_trace cw o q s :
  trace o (findElementsByPattern cw q) s =
  SearchStructures (toLowerCase q) :: StructuresByCategory "cognitive_task" ::
  map GetDataStructure (discoveredStructures o q).
Proof.
  unfold findElementsByPattern, discoveredStructures.
  rewrite trace_update, !trace_fetch. do 2 f_equal.
  destruct (jsonAll _) as [arrs|]; [|reflexivity].
  rewrite trace_update, trace_bind, batchLoop_trace.
  - unfold batchesOf. rewrite concat_chunks by (unfold batchSize; lia).
    rewrite trace_update. cbn. apply app_nil_r.
  - unfold batchesOf. rewrite concat_chunks; [apply unique_nodup|lia|unfold batchSize; lia].
  - intros k [].
Qed.

Lemma fep_progress cw o q s :
  let ls := loadingState (finalState o (findElementsByPattern cw q) s) in
  isLoading ls = false /\ currentBatch ls = totalBatches ls /\
  totalBatches ls = List.length (batchesOf (discoveredStructures o q)).
Proof.
  cbv zeta. unfold findElementsByPattern, discoveredStructures.
  rewrite finalState_update, !finalState_fetch.
  destruct (jsonAll _) as [arrs|]; [|cbn; repeat split].
  rewrite finalState_update, finalState_bind, finalState_update.
  set (bs := batchesOf _).
  set (s1 := setLoadingState _ (setLoadingState _ s)).
  destruct (batchLoop_loading cw o (toLowerCase q) bs 0 (List.length bs) [] [] s1)
    as (H1 & H2 & H3).
  rewrite finalState_ret.
  cbn [loadingState setLoadingState isLoading currentBatch totalBatches].
  rewrite H2, H3. subst s1. cbn. destruct bs; repeat split.
Qed.

Lemma discoveredStructures_nodup o q : NoDup (discoveredStructures o q).
Proof.
  unfold discoveredStructures. destruct (jsonAll _); [apply unique_nodup|constructor].
Qed.

Lemma structureFetches_search q l :
  structureFetches (SearchStructures q :: StructuresByCategory "cognitive_task" ::
                    map GetDataStructure l) = l.
Proof.
  unfold structureFetches. cbn [flat_map app].
  induction l as [|n l IH]; [reflexivity|]. cbn. f_equal. exact IH.
Qed.

Lemma count_occ_nodup l id :
  NoDup l -> count_occ string_dec l id = if existsb (String.eqb id) l then 1 else 0.
Proof.
  induction l as [|n l IH]; intros Hnd; [reflexivity|].
  inversion Hnd as [|? ? Hn Hnd']; subst. cbn [count_occ existsb].
  destruct (string_dec n id) as [->|E].
  - rewrite String.eqb_refl. cbn [orb]. f_equal.
    apply count_occ_not_In. exact Hn.
  - destruct (String.eqb_spec id n) as [->|_]; [congruence|]. cbn [orb]. apply IH, Hnd'.
Qed.

(** Every call of [findElementsByPattern] for a query without regular
    expression syntax sends exactly these requests, in this order: the two
    structure searches, then one structure fetch for each distinct
    structure name they returned, in order of first occurrence.  The
    structure cache is never hit, and a failed initial search fetches no
    structure.  (The source's [containsWord] builds
    [new RegExp(`\\b${word}\\b`, "i")] from the unescaped query: for a query
    such as ["("] it throws and the [catch] ends the search early; the
    model's [containsWordB] is a total test, so the statement is made for
    queries on which that constructor cannot throw.) *)
Theorem findElementsByPattern_trace cw o q s :
  Highlight.noRegexSpecial (toLowerCase q) = true ->
  trace o (findElementsByPattern cw q) s =
  SearchStructures (toLowerCase q) :: StructuresByCategory "cognitive_task" ::
  map GetDataStructure (discoveredStructures o q).
Proof. intros _. apply fep_trace. Qed.

(** After [findElementsByPattern] for a query without regular expression
    syntax, the progress indicator is off and shows the last batch as
    done: [currentBatch] equals [totalBatches], the number of batches of
    25 structures (0 when the initial search failed).  (As above, a query
    on which [new RegExp] throws leaves the search in its [catch] after
    the first batch.) *)
Theorem findElementsByPattern_progress cw o q s :
  Highlight.noRegexSpecial (toLowerCase q) = true ->
  let ls := loadingState (finalState o (findElementsByPattern cw q) s) in
  isLoading ls = false /\ currentBatch ls = totalBatches ls /\
  totalBatches ls = List.length (batchesOf (discoveredStructures o q)).
Proof. intros _. apply fep_progress. Qed.

(** C2: the structure cache is local to one call of
    [findElementsByPattern] (line 682) and the names are deduplicated
    before batching, so it never serves a fetch: over two searches in one
    session a structure is fetched once by each search that discovers it,
    twice when both do. *)
Theorem findElementsByPattern_cache_not_shared cw o q1 q2 s id :
  Highlight.noRegexSpecial (toLowerCase q1) = true ->
  Highlight.noRegexSpecial (toLowerCase q2) = true ->
  count_occ Req_eq_dec
    (trace o (_ <- findElementsByPattern cw q1 ;; findElementsByPattern cw q2) s)
    (GetDataStructure id) =
  (if existsb (String.eqb id) (discoveredStructures o q1) then 1 else 0) +
  (if existsb (String.eqb id) (discoveredStructures o q2) then 1 else 0).
Proof.
  intros _ _. rewrite trace_bind, !fep_trace, count_occ_app, !count_occ_structureFetches,
    !structureFetches_search, !count_occ_nodup by apply discoveredStructures_nodup.
  reflexivity.
Qed.

Lemma unique_fold_in xs : forall acc x,
  In x (fold_left (fun acc x => if existsb (String.eqb x) acc then acc else x :: acc) xs acc)
  <-> In x acc \/ In x xs.
Proof.
  induction xs as [|y xs IH]; intros acc x; cbn [fold_left In]; [tauto|].
  rewrite IH. destruct (existsb (String.eqb y) acc) eqn:E.
  - apply existsb_exists in E as [z [Hz Ez]]. apply String.eqb_eq in Ez. subst z.
    split; [tauto|]. intros [H|[E|H]]; [left|subst; left|right]; assumption.
  - cbn [In]. tauto.
Qed.

Lemma chunks_length fuel n xs :
  List.length xs <= fuel -> 0 < n ->
  List.length (chunks fuel n xs) = (List.length xs + (n - 1)) / n.
Proof.
  revert xs. induction fuel as [|fuel IH]; intros xs Hlen Hn.
  - destruct xs; [|cbn in Hlen; lia]. cbn. symmetry. apply Nat.div_small. lia.
  - destruct xs as [|x xs']; [cbn; symmetry; apply Nat.div_small; lia|].
    cbn [chunks List.length]. rewrite IH; [|rewrite length_skipn; cbn [List.length] in *; lia|exact Hn].
    rewrite length_skipn. cbn [List.length].
    destruct (Nat.le_gt_cases n (S (List.length xs'))) as [Hge|Hlt].
    + replace (S (List.length xs') + (n - 1))
        with ((S (List.length xs') - n + (n - 1)) + 1 * n) by lia.
      rewrite Nat.div_add by lia. lia.
    + replace (S (List.length xs') - n) with 0 by lia.
      replace (S (List.length xs') + (n - 1)) with (1 * n + List.length xs') by lia.
      rewrite Nat.div_add_l by lia. rewrite (Nat.div_small (n - 1)) by lia.
      rewrite Nat.div_small by lia. reflexivity.
Qed.

Lemma chunks_sizes fuel n : forall xs i b,
  List.length xs <= fuel -> 0 < n ->
  nth_error (chunks fuel n xs) i = Some b ->
  0 < List.length b <= n /\ (S i < List.length (chunks fuel n xs) -> List.length b = n).
Proof.
  induction fuel as [|fuel IH]; intros xs i b Hlen Hn Hb.
  - destruct i; discriminate.
  - destruct xs as [|x xs']; [destruct i; discriminate|].
    cbn [chunks] in *. destruct i as [|i].
    + injection Hb as <-. rewrite length_firstn. cbn [List.length]. split; [lia|].
      intro Hmore. cbn [List.length] in Hmore.
      destruct (Nat.le_gt_cases n (S (List.length xs'))) as [Hge|Hlt]; [lia|].
      rewrite skipn_all2 in Hmore by (cbn; lia).
      destruct fuel; cbn in Hmore; lia.
    + cbn [nth_error] in Hb.
      destruct (IH (skipn n (x :: xs')) i b ltac:(rewrite length_skipn; cbn [List.length] in *; lia) Hn Hb) as [H1 H2].
      split; [exact H1|]. intro Hi. apply H2. cbn [List.length] in Hi. lia.
Qed.

(** [unique] (the [[...new Set(...)]] of the structure names): no name
    twice, and exactly the names of its input. *)
Theorem unique_spec xs :
  NoDup (unique xs) /\ (forall x, In x (unique xs) <-> In x xs).
Proof.
  split; [apply unique_nodup|]. intro x. unfold unique.
  rewrite <- in_rev, unique_fold_in. cbn [In]. tauto.
Qed.

(** The batches of [findElementsByPattern]: together they are the list
    in order, there are [ceil(n / 25)] of them, each holds 1 to 25
    names, and every batch but the last holds exactly 25. *)
Theorem batchesOf_shape xs :
  List.concat (batchesOf xs) = xs /\
  List.length (batchesOf xs) = (List.length xs + 24) / 25 /\
  (forall i b, nth_error (batchesOf xs) i = Some b ->
     0 < List.length b <= 25 /\
     (S i < List.length (batchesOf xs) -> List.length b = 25)).
Proof.
  unfold batchesOf, batchSize. split; [|split].
  - apply concat_chunks; lia.
  - apply chunks_length; lia.
  - intros i b Hb. apply (chunks_sizes _ _ xs i b (le_n _)); [lia|exact Hb].
Qed.

Lemma handlePartialSearch_exact_hit_witness :
  trim (searchTerm (stateWith "age")) <> ""%string /\
  oracleFound (GetDataElement (trim (searchTerm (stateWith "age")))) =
    HttpOk (inr (el "age" "found")) /\
  element (finalState oracleFound (handlePartialSearch containsWordFragment (stateWith "age"))
                      (stateWith "age")) = Some (el "age" "found").
Proof.
  assert (H1 : trim (searchTerm (stateWith "age")) <> ""%string)
    by (intro H; vm_compute in H; discriminate H).
  assert (H2 : oracleFound (GetDataElement (trim (searchTerm (stateWith "age")))) =
                 HttpOk (inr (el "age" "found"))) by reflexivity.
  split; [exact H1|split; [exact H2|]].
  pose proof (handlePartialSearch_exact_hit containsWordFragment oracleFound
                (stateWith "age") (stateWith "age") (el "age" "found") H1 H2) as W.
  cbv zeta in W. destruct W as (_ & W & _). exact W.
Defined.

Lemma handlePartialSearch_lookup_error_witness :
  trim (searchTerm (stateWith "age")) <> ""%string /\
  oracleDown (GetDataElement (trim (searchTerm (stateWith "age")))) = NetError "Failed to fetch" /\
  error (finalState oracleDown (handlePartialSearch containsWordFragment (stateWith "age"))
                    (stateWith "age")) =
    Some ("Error searching for elements: " ++ "Failed to fetch")%string.
Proof.
  assert (H1 : trim (searchTerm (stateWith "age")) <> ""%string)
    by (intro H; vm_compute in H; discriminate H).
  assert (H2 : oracleDown (GetDataElement (trim (searchTerm (stateWith "age")))) =
                 NetError "Failed to fetch") by reflexivity.
  split; [exact H1|split; [exact H2|]].
  pose proof (handlePartialSearch_lookup_error containsWordFragment oracleDown
                (stateWith "age") (stateWith "age") "Failed to fetch" H1 (or_introl H2)) as W.
  cbv zeta in W. destruct W as (_ & W & _). exact W.
Defined.

Lemma handlePartialSearch_many_witness :
  trim (searchTerm (stateWith "aaa")) <> ""%string /\
  oracleS1 (GetDataElement (trim (searchTerm (stateWith "aaa")))) = HttpNotOk /\
  2 <= List.length (result oracleS1 (findElementsByPattern containsWordFragment
                     (trim (searchTerm (stateWith "aaa")))) (stateWith "aaa")) /\
  isPartialSearch (finalState oracleS1 (handlePartialSearch containsWordFragment (stateWith "aaa"))
                              (stateWith "aaa")) = true.
Proof.
  assert (H1 : trim (searchTerm (stateWith "aaa")) <> ""%string)
    by (intro H; vm_compute in H; discriminate H).
  assert (H2 : oracleS1 (GetDataElement (trim (searchTerm (stateWith "aaa")))) = HttpNotOk)
    by reflexivity.
  assert (H3 : 2 <= List.length (result oracleS1 (findElementsByPattern containsWordFragment
                     (trim (searchTerm (stateWith "aaa")))) (stateWith "aaa")))
    by (apply Nat.leb_le; vm_compute; reflexivity).
  split; [exact H1|split; [exact H2|split; [exact H3|]]].
  pose proof (handlePartialSearch_many containsWordFragment oracleS1
                (stateWith "aaa") (stateWith "aaa") H1 H2 H3) as W.
  cbv zeta in W. destruct W as (_ & _ & _ & _ & _ & W & _). exact W.
Defined.

Lemma handlePartialSearch_single_witness :
  let m := {| mr_name := "q1"; mr_type := "Unknown"; mr_description := "bbb";
              mr_structure := "S2"; mr_matchType := DescriptionMatch;
              mr_relevance := 24%Z |} in
  trim (searchTerm (stateWith "bbb")) <> ""%string /\
  oracleOne (GetDataElement (trim (searchTerm (stateWith "bbb")))) = HttpNotOk /\
  result oracleOne (findElementsByPattern containsWordFragment
                      (trim (searchTerm (stateWith "bbb")))) (stateWith "bbb") = [m] /\
  element (finalState oracleOne (handlePartialSearch containsWordFragment (stateWith "bbb"))
                      (stateWith "bbb")) = Some (el "q1" "bbb").
Proof.
  intro m.
  assert (H1 : trim (searchTerm (stateWith "bbb")) <> ""%string)
    by (intro H; vm_compute in H; discriminate H).
  assert (H2 : oracleOne (GetDataElement (trim (searchTerm (stateWith "bbb")))) = HttpNotOk)
    by reflexivity.
  assert (H3 : result oracleOne (findElementsByPattern containsWordFragment
                  (trim (searchTerm (stateWith "bbb")))) (stateWith "bbb") = [m])
    by (vm_compute; reflexivity).
  split; [exact H1|split; [exact H2|split; [exact H3|]]].
  pose proof (handlePartialSearch_single containsWordFragment oracleOne
                (stateWith "bbb") (stateWith "bbb") m H1 H2 H3) as W.
  cbv zeta in W. destruct W as (_ & _ & _ & _ & W). exact (proj1 W).
Defined.

Lemma handleSearch_history_ok_witness :
  recentSearches (stateWith "age") = recentSearches (stateWith "age") /\
  NoDup (recentSearches (stateWith "age")) /\
  List.length (recentSearches (stateWith "age")) <= 10 /\
  NoDup (recentSearches (finalState oracleFound (handleSearch containsWordFragment (stateWith "age"))
                                    (stateWith "age"))).
Proof.
  assert (H1 : recentSearches (stateWith "age") = recentSearches (stateWith "age"))
    by reflexivity.
  assert (H2 : NoDup (recentSearches (stateWith "age"))) by constructor.
  assert (H3 : List.length (recentSearches (stateWith "age")) <= 10) by (cbn; lia).
  split; [exact H1|split; [exact H2|split; [exact H3|]]].
  exact (proj1 (handleSearch_history_ok containsWordFragment oracleFound
                  (stateWith "age") (stateWith "age") H1 H2 H3)).
Defined.

Lemma handleClear_search_continues_witness :
  trim (searchTerm (stateWith "age")) <> ""%string /\
  oracleFound (GetDataElement (trim (searchTerm (stateWith "age")))) =
    HttpOk (inr (el "age" "found")) /\
  let p := handleSearch containsWordFragment (stateWith "age") in
  let s3 := finalState oracleFound (snd (runSlice oracleFound p (stateWith "age")))
              (finalState oracleFound handleClear (fst (runSlice oracleFound p (stateWith "age")))) in
  searchTerm s3 = ""%string /\ element s3 = Some (el "age" "found").
Proof.
  assert (H1 : trim (searchTerm (stateWith "age")) <> ""%string)
    by (intro H; vm_compute in H; discriminate H).
  assert (H2 : oracleFound (GetDataElement (trim (searchTerm (stateWith "age")))) =
                 HttpOk (inr (el "age" "found"))) by reflexivity.
  split; [exact H1|split; [exact H2|]].
  pose proof (handleClear_search_continues containsWordFragment oracleFound
                (stateWith "age") (stateWith "age") (el "age" "found") H1 H2) as W.
  cbv zeta in W |- *. destruct W as (_ & _ & W1 & W2 & _). split; [exact W1|exact W2].
Defined.

Lemma findElementsByPattern_trace_witness :
  Highlight.noRegexSpecial (toLowerCase "aaa") = true /\
  trace oracleS1 (findElementsByPattern containsWordFragment "aaa") (stateWith "") =
    [SearchStructures "aaa"; StructuresByCategory "cognitive_task"; GetDataStructure "S1"].
Proof.
  assert (H : Highlight.noRegexSpecial (toLowerCase "aaa") = true) by reflexivity.
  split; [exact H|].
  rewrite (findElementsByPattern_trace containsWordFragment oracleS1 "aaa" (stateWith "") H).
  reflexivity.
Defined.

Lemma findElementsByPattern_progress_witness :
  Highlight.noRegexSpecial (toLowerCase "aaa") = true /\
  let ls := loadingState (finalState oracleS1 (findElementsByPattern containsWordFragment "aaa")
                                     (stateWith "")) in
  isLoading ls = false /\ currentBatch ls = 1 /\ totalBatches ls = 1.
Proof.
  assert (H : Highlight.noRegexSpecial (toLowerCase "aaa") = true) by reflexivity.
  split; [exact H|].
  pose proof (findElementsByPattern_progress containsWordFragment oracleS1 "aaa" (stateWith "") H)
    as W.
  cbv zeta in *. destruct W as (A & B & C).
  split; [exact A|]. rewrite B, C. split; reflexivity.
Defined.

Lemma findElementsByPattern_cache_not_shared_witness :
  Highlight.noRegexSpecial (toLowerCase "aaa") = true /\
  count_occ Req_eq_dec (trace oracleS1 twoRetrievals (stateWith "")) (GetDataStructure "S1") = 2.
Proof.
  assert (H : Highlight.noRegexSpecial (toLowerCase "aaa") = true) by reflexivity.
  split; [exact H|]. unfold twoRetrievals.
  rewrite (findElementsByPattern_cache_not_shared containsWordFragment oracleS1 "aaa" "aaa"
             (stateWith "") "S1" H H).
  reflexivity.
Defined.

End V2HandlerFacts.

Module V1SearchFacts.
Import V1Search.
Local Open Scope list_scope.

Lemma exec_bind_v1 {A B} o (p : Prog A) (f : A -> Prog B) s :
  exec o (bind p f) s =
  let '(s1, tr1, a) := exec o p s in
  let '(s2, tr2, b) := exec o (f a) s1 in (s2, tr1 ++ tr2, b).
Proof.
  revert s. induction p as [a|g k IH|r k IH]; intro s; cbn.
  - destruct (exec o (f a) s) as [[s2 tr2] b]. reflexivity.
  - apply IH.
  - rewrite IH. destruct (exec o (k (o r)) s) as [[s1 tr1] a].
    destruct (exec o (f a) s1) as [[s2 tr2] b]. reflexivity.
Qed.

Lemma finalState_bind_v1 {A B} o (p : Prog A) (f : A -> Prog B) s :
  finalState o (bind p f) s = finalState o (f (result o p s)) (finalState o p s).
Proof.
  unfold finalState, result. rewrite exec_bind_v1.
  destruct (exec o p s) as [[s1 tr1] a]. cbn.
  destruct (exec o (f a) s1) as [[s2 tr2] b]. reflexivity.
Qed.

Lemma trace_bind_v1 {A B} o (p : Prog A) (f : A -> Prog B) s :
  trace o (bind p f) s = trace o p s ++ trace o (f (result o p s)) (finalState o p s).
Proof.
  unfold finalState, result, trace. rewrite exec_bind_v1.
  destruct (exec o p s) as [[s1 tr1] a]. cbn.
  destruct (exec o (f a) s1) as [[s2 tr2] b]. reflexivity.
Qed.

Lemma result_bind_v1 {A B} o (p : Prog A) (f : A -> Prog B) s :
  result o (bind p f) s = result o (f (result o p s)) (finalState o p s).
Proof.
  unfold finalState, result. rewrite exec_bind_v1.
  destruct (exec o p s) as [[s1 tr1] a]. cbn.
  destruct (exec o (f a) s1) as [[s2 tr2] b]. reflexivity.
Qed.

Lemma finalState_update_v1 {A} o f (k : Prog A) s :
  finalState o (Update f k) s = finalState o k (f s).
Proof. reflexivity. Qed.

Lemma trace_update_v1 {A} o f (k : Prog A) s : trace o (Update f k) s = trace o k (f s).
Proof. reflexivity. Qed.

Lemma finalState_fetch_v1 {A} o r (k : _ -> Prog A) s :
  finalState o (Fetch r k) s = finalState o (k (o r)) s.
Proof.
  unfold finalState. cbn. destruct (exec o (k (o r)) s) as [[s1 tr] a]. reflexivity.
Qed.

Lemma trace_fetch_v1 {A} o r (k : _ -> Prog A) s :
  trace o (Fetch r k) s = r :: trace o (k (o r)) s.
Proof.
  unfold trace. cbn. destruct (exec o (k (o r)) s) as [[s1 tr] a]. reflexivity.
Qed.

Lemma result_fetch_v1 {A} o r (k : _ -> Prog A) s :
  result o (Fetch r k) s = result o (k (o r)) s.
Proof.
  unfold result. cbn. destruct (exec o (k (o r)) s) as [[s1 tr] a]. reflexivity.
Qed.

Lemma finalState_updateRecent o snap t (k : Prog unit) s :
  finalState o (updateRecentSearches snap t k) s =
  finalState o k (if existsb (String.eqb t) snap then s
                  else setRecentSearches (fun prev => firstn 10 (t :: prev)) s).
Proof. unfold updateRecentSearches. destruct (existsb _ _); reflexivity. Qed.

Lemma trace_updateRecent o snap t (k : Prog unit) s :
  trace o (updateRecentSearches snap t k) s =
  trace o k (if existsb (String.eqb t) snap then s
             else setRecentSearches (fun prev => firstn 10 (t :: prev)) s).
Proof. unfold updateRecentSearches. destruct (existsb _ _); reflexivity. Qed.

Lemma fetchDetails_run o q rs : forall s,
  finalState o (fetchDetails q rs) s = s /\
  trace o (fetchDetails q rs) s = map (fun r => GetDataElement (sr_name r)) rs /\
  result o (fetchDetails q rs) s =
    map (fun r => detailOf q r (o (GetDataElement (sr_name r)))) rs.
Proof.
  induction rs as [|r rs IH]; intro s; [repeat split|].
  cbn [fetchDetails]. rewrite finalState_fetch_v1, trace_fetch_v1, result_fetch_v1.
  rewrite finalState_bind_v1, trace_bind_v1, result_bind_v1.
  destruct (IH s) as (H1 & H2 & H3). rewrite H1, H2, H3.
  cbn. rewrite app_nil_r. repeat split.
Qed.

Lemma insertByScore_perm d l : Permutation (insertByScore d l) (d :: l).
Proof.
  induction l as [|y l IH]; cbn; [reflexivity|].
  destruct (negb _); [reflexivity|].
  rewrite IH. apply perm_swap.
Qed.

Lemma sortByScore_fold_perm l acc :
  Permutation (fold_left (fun acc d => insertByScore d acc) l acc) (l ++ acc).
Proof.
  revert acc. induction l as [|x l IH]; intro acc; cbn; [reflexivity|].
  rewrite IH, insertByScore_perm. symmetry. apply Permutation_middle.
Qed.

Lemma sortByScore_perm l : Permutation (sortByScore l) l.
Proof. unfold sortByScore. rewrite sortByScore_fold_perm, app_nil_r. reflexivity. Qed.

Lemma insertByScore_sorted d l :
  StronglySorted (fun a b => scoreOr0 (d_score b) <= scoreOr0 (d_score a))%Q l ->
  StronglySorted (fun a b => scoreOr0 (d_score b) <= scoreOr0 (d_score a))%Q
                 (insertByScore d l).
Proof.
  induction l as [|y l IH]; intro Hs; cbn.
  - repeat constructor.
  - apply StronglySorted_inv in Hs as [Hl Hy].
    destruct (Qle_bool (scoreOr0 (d_score d)) (scoreOr0 (d_score y))) eqn:E; cbn [negb].
    + apply Qle_bool_iff in E.
      constructor; [apply IH, Hl|].
      apply Forall_forall. intros a Ha.
      apply (Permutation_in _ (insertByScore_perm d l)) in Ha.
      destruct Ha as [<-|Ha]; [exact E|].
      rewrite Forall_forall in Hy. apply Hy, Ha.
    + assert (Hlt : (scoreOr0 (d_score y) < scoreOr0 (d_score d))%Q).
      { apply Qnot_le_lt. intro H. apply Qle_bool_iff in H. congruence. }
      constructor; [constructor; assumption|].
      constructor; [apply Qlt_le_weak, Hlt|].
      eapply Forall_impl; [|exact Hy]. intros a Ha.
      eapply Qle_trans; [exact Ha|apply Qlt_le_weak, Hlt].
Qed.

Lemma sortByScore_sorted l :
  StronglySorted (fun a b => scoreOr0 (d_score b) <= scoreOr0 (d_score a))%Q (sortByScore l).
Proof.
  unfold sortByScore.
  assert (H : forall acc,
    StronglySorted (fun a b => scoreOr0 (d_score b) <= scoreOr0 (d_score a))%Q acc ->
    StronglySorted (fun a b => scoreOr0 (d_score b) <= scoreOr0 (d_score a))%Q
                   (fold_left (fun acc d => insertByScore d acc) l acc)).
  { induction l as [|x l IH]; intros acc Hacc; cbn; [exact Hacc|].
    apply IH, insertByScore_sorted, Hacc. }
  apply H. constructor.
Qed.

(** The first [handleSearch], exact lookup found: the element is shown and
    the trimmed query goes to the front of the history (at most 10
    entries) unless the render's history holds it; nothing else is
    requested. *)
Theorem handleSearch_exact_hit (o : Oracle) (st s : UIState) (data : FullData) :
  trim (searchTerm st) <> ""%string ->
  o (GetDataElement (trim (searchTerm st))) = V2.HttpOk (inr data) ->
  let q := trim (searchTerm st) in
  let s' := finalState o (handleSearch st) s in
  trace o (handleSearch st) s = [GetDataElement q] /\
  element s' = Some data /\ error s' = None /\ matchingElements s' = [] /\
  isPartialSearch s' = false /\ loading s' = false /\
  recentSearches s' = (if existsb (String.eqb q) (recentSearches st) then recentSearches s
                       else firstn 10 (q :: recentSearches s)).
Proof.
  intros Hq Ho. cbv zeta. unfold handleSearch.
  destruct (String.eqb_spec (trim (searchTerm st)) "") as [E|_]; [contradiction|].
  rewrite !finalState_update_v1, !trace_update_v1, finalState_fetch_v1, trace_fetch_v1, Ho.
  cbv beta iota.
  rewrite finalState_update_v1, trace_update_v1, finalState_updateRecent, trace_updateRecent.
  destruct (existsb _ _); cbn; repeat split.
Qed.

(** The first [handleSearch], exact lookup not [ok] and the full-text
    search returning results: each result's details are fetched, in
    order; the results whose details arrived are listed, highest [_score]
    first (a missing score counting as 0), and the query is recorded in
    the history, even when no detail arrived. *)
Theorem handleSearch_partial_results (o : Oracle) (st s : UIState)
  (results : list SearchResult) :
  trim (searchTerm st) <> ""%string ->
  o (GetDataElement (trim (searchTerm st))) = V2.HttpNotOk ->
  o (SearchFull (trim (searchTerm st))) = V2.HttpOk (inr (Some results)) ->
  results <> [] ->
  let q := trim (searchTerm st) in
  let s' := finalState o (handleSearch st) s in
  trace o (handleSearch st) s =
    GetDataElement q :: SearchFull q :: map (fun r => GetDataElement (sr_name r)) results /\
  Permutation (matchingElements s')
    (V2.filterSome (map (fun r => detailOf q r (o (GetDataElement (sr_name r)))) results)) /\
  StronglySorted (fun a b => scoreOr0 (d_score b) <= scoreOr0 (d_score a))%Q
                 (matchingElements s') /\
  isPartialSearch s' = true /\ element s' = None /\ error s' = None /\ loading s' = false /\
  recentSearches s' = (if existsb (String.eqb q) (recentSearches st) then recentSearches s
                       else firstn 10 (q :: recentSearches s)).
Proof.
  intros Hq Ho1 Ho2 Hne. cbv zeta. unfold handleSearch.
  remember (trim (searchTerm st)) as q eqn:Eq.
  destruct (String.eqb_spec q "") as [E|_]; [contradiction|].
  rewrite !finalState_update_v1, !trace_update_v1, finalState_fetch_v1, trace_fetch_v1, Ho1.
  cbv beta iota. rewrite finalState_fetch_v1, trace_fetch_v1, Ho2. cbv beta iota.
  destruct results as [|r0 rs]; [contradiction|].
  set (s1 := setIsPartialSearch false _).
  rewrite finalState_bind_v1, trace_bind_v1.
  destruct (fetchDetails_run o q (r0 :: rs) s1) as (H1 & H2 & H3).
  rewrite H1, H2, H3.
  rewrite !finalState_update_v1, !trace_update_v1, finalState_updateRecent, trace_updateRecent.
  set (ds := V2.filterSome _).
  destruct (existsb _ _); cbn - [sortByScore ds];
    (split; [rewrite app_nil_r; reflexivity|]);
    (split; [apply sortByScore_perm|]); (split; [apply sortByScore_sorted|]); repeat split.
Qed.

(** The first [handleSearch], exact lookup not [ok]: a full-text search
    that is not [ok] ends with [Error searching for elements: Failed to
    fetch matching elements]; one with no results ends with [No data
    elements found containing "<term>"], quoting the search term as
    typed (untrimmed).  Either way nothing is listed or shown and the
    history is unchanged. *)
Theorem handleSearch_partial_failure (o : Oracle) (st s : UIState) :
  trim (searchTerm st) <> ""%string ->
  o (GetDataElement (trim (searchTerm st))) = V2.HttpNotOk ->
  let q := trim (searchTerm st) in
  let s' := finalState o (handleSearch st) s in
  (o (SearchFull q) = V2.HttpNotOk ->
   error s' = Some "Error searching for elements: Failed to fetch matching elements"%string) /\
  (o (SearchFull q) = V2.HttpOk (inr None) \/ o (SearchFull q) = V2.HttpOk (inr (Some [])) ->
   error s' = Some (V2.noMatchMessage (searchTerm st))) /\
  (o (SearchFull q) = V2.HttpNotOk \/
   o (SearchFull q) = V2.HttpOk (inr None) \/ o (SearchFull q) = V2.HttpOk (inr (Some [])) ->
   trace o (handleSearch st) s = [GetDataElement q; SearchFull q] /\
   loading s' = false /\ element s' = None /\ matchingElements s' = [] /\
   isPartialSearch s' = false /\ recentSearches s' = recentSearches s).
Proof.
  intros Hq Ho1. cbv zeta. unfold handleSearch.
  remember (trim (searchTerm st)) as q eqn:Eq.
  destruct (String.eqb_spec q "") as [E|_]; [contradiction|].
  rewrite !finalState_update_v1, !trace_update_v1, finalState_fetch_v1, trace_fetch_v1, Ho1.
  cbv beta iota. rewrite finalState_fetch_v1, trace_fetch_v1.
  split; [|split].
  - intro H2. rewrite H2. reflexivity.
  - intros [H2|H2]; rewrite H2; reflexivity.
  - intros [H2|[H2|H2]]; rewrite H2; cbn; repeat split.
Qed.

Lemma history_record (t : string) h :
  NoDup h -> List.length h <= 10 ->
  let h' := if existsb (String.eqb t) h then h else firstn 10 (t :: h) in
  NoDup h' /\ List.length h' <= 10.
Proof.
  intros Hnd Hlen. cbv zeta. destruct (existsb (String.eqb t) h) eqn:E; [split; assumption|].
  split.
  - apply V2HandlerFacts.NoDup_firstn. constructor; [|exact Hnd]. intro Hin.
    assert (existsb (String.eqb t) h = true)
      by (apply existsb_exists; exists t; split; [exact Hin|apply String.eqb_refl]).
    congruence.
  - rewrite length_firstn. lia.
Qed.

(** When the render is up to date ([recentSearches] of the render is the
    current history), the first [handleSearch] keeps the history free of
    duplicates and at most 10 entries long. *)
Theorem handleSearch_v1_history_ok (o : Oracle) (st s : UIState) :
  recentSearches st = recentSearches s ->
  NoDup (recentSearches s) -> List.length (recentSearches s) <= 10 ->
  let s' := finalState o (handleSearch st) s in
  NoDup (recentSearches s') /\ List.length (recentSearches s') <= 10.
Proof.
  intros Hsnap Hnd Hlen. cbv zeta.
  pose proof (history_record (trim (searchTerm st)) _ Hnd Hlen) as HR. cbv zeta in HR.
  unfold handleSearch.
  destruct (String.eqb (trim (searchTerm st)) ""); [split; assumption|].
  rewrite !finalState_update_v1, finalState_fetch_v1.
  destruct (o (GetDataElement _)) as [msg| |[msg|data]]; cbv beta iota.
  - split; assumption.
  - rewrite finalState_fetch_v1.
    destruct (o (SearchFull _)) as [msg| |[msg|[[|r0 rs]|]]]; cbv beta iota;
      try (split; assumption).
    rewrite finalState_bind_v1.
    destruct (fetchDetails_run o (trim (searchTerm st)) (r0 :: rs)
                (setIsPartialSearch false (setMatchingElements []
                  (setElement None (setError None (setLoading true s)))))) as (H1 & _ & _).
    rewrite H1, !finalState_update_v1, finalState_updateRecent, Hsnap.
    destruct (existsb _ _); cbn; exact HR.
  - split; assumption.
  - rewrite finalState_update_v1, finalState_updateRecent, Hsnap.
    destruct (existsb _ _); cbn; exact HR.
Qed.

(** The first [handleRecentSearch]: the search it awaits is that of the
    render's own search term, not of the term clicked; with an empty term
    there it only fills in the search field. *)
Theorem handleRecentSearch_v1_stale_term (o : Oracle) (st : UIState) (term : string)
  (s : UIState) :
  (trim (searchTerm st) = ""%string ->
   trace o (handleRecentSearch st term) s = [] /\
   finalState o (handleRecentSearch st term) s = setSearchTerm term s) /\
  (trim (searchTerm st) <> ""%string ->
   hd_error (trace o (handleRecentSearch st term) s) =
   Some (GetDataElement (trim (searchTerm st)))).
Proof.
  unfold handleRecentSearch. rewrite trace_update_v1, finalState_update_v1.
  unfold handleSearch. split; intro H.
  - rewrite H. split; reflexivity.
  - destruct (String.eqb_spec (trim (searchTerm st)) "") as [E|_]; [contradiction|].
    rewrite !trace_update_v1, trace_fetch_v1. reflexivity.
Qed.

Lemma handleSearch_exact_hit_witness :
  trim (searchTerm (stateWith "age")) <> ""%string /\
  oracleFound (GetDataElement (trim (searchTerm (stateWith "age")))) = V2.HttpOk (inr ageData) /\
  recentSearches (finalState oracleFound (handleSearch (stateWith "age")) (stateWith "age")) =
    ["age"%string].
Proof.
  assert (H1 : trim (searchTerm (stateWith "age")) <> ""%string)
    by (intro H; vm_compute in H; discriminate H).
  assert (H2 : oracleFound (GetDataElement (trim (searchTerm (stateWith "age")))) =
                 V2.HttpOk (inr ageData)) by reflexivity.
  split; [exact H1|split; [exact H2|]].
  pose proof (handleSearch_exact_hit oracleFound (stateWith "age") (stateWith "age")
                ageData H1 H2) as W.
  cbv zeta in W. destruct W as (_ & _ & _ & _ & _ & _ & W). rewrite W. vm_compute. reflexivity.
Defined.

Lemma handleSearch_partial_results_witness :
  let results := [mkSearchResult "age_months" "" None (Some 2%Q);
                  mkSearchResult "age_years" "" None (Some 5%Q)] in
  trim (searchTerm (stateWith "age")) <> ""%string /\
  oraclePartial (GetDataElement (trim (searchTerm (stateWith "age")))) = V2.HttpNotOk /\
  oraclePartial (SearchFull (trim (searchTerm (stateWith "age")))) =
    V2.HttpOk (inr (Some results)) /\
  results <> [] /\
  StronglySorted (fun a b => scoreOr0 (d_score b) <= scoreOr0 (d_score a))%Q
    (matchingElements (finalState oraclePartial (handleSearch (stateWith "age"))
                                  (stateWith "age"))).
Proof.
  intro results.
  assert (H1 : trim (searchTerm (stateWith "age")) <> ""%string)
    by (intro H; vm_compute in H; discriminate H).
  assert (H2 : oraclePartial (GetDataElement (trim (searchTerm (stateWith "age")))) =
                 V2.HttpNotOk) by reflexivity.
  assert (H3 : oraclePartial (SearchFull (trim (searchTerm (stateWith "age")))) =
                 V2.HttpOk (inr (Some results))) by reflexivity.
  assert (H4 : results <> []) by discriminate.
  split; [exact H1|split; [exact H2|split; [exact H3|split; [exact H4|]]]].
  pose proof (handleSearch_partial_results oraclePartial (stateWith "age") (stateWith "age")
                results H1 H2 H3 H4) as W.
  cbv zeta in W. destruct W as (_ & _ & W & _). exact W.
Defined.

Lemma handleSearch_partial_failure_witness :
  trim (searchTerm (stateWith "age")) <> ""%string /\
  oracleNotOk (GetDataElement (trim (searchTerm (stateWith "age")))) = V2.HttpNotOk /\
  error (finalState oracleNotOk (handleSearch (stateWith "age")) (stateWith "age")) =
    Some "Error searching for elements: Failed to fetch matching elements"%string.
Proof.
  assert (H1 : trim (searchTerm (stateWith "age")) <> ""%string)
    by (intro H; vm_compute in H; discriminate H).
  assert (H2 : oracleNotOk (GetDataElement (trim (searchTerm (stateWith "age")))) =
                 V2.HttpNotOk) by reflexivity.
  split; [exact H1|split; [exact H2|]].
  pose proof (handleSearch_partial_failure oracleNotOk (stateWith "age") (stateWith "age")
                H1 H2) as W.
  cbv zeta in W. destruct W as (W & _). exact (W eq_refl).
Defined.

Lemma handleSearch_v1_history_ok_witness :
  recentSearches (stateWith "age") = recentSearches (stateWith "age") /\
  NoDup (recentSearches (stateWith "age")) /\
  List.length (recentSearches (stateWith "age")) <= 10 /\
  NoDup (recentSearches (finalState oraclePartial (handleSearch (stateWith "age"))
                                    (stateWith "age"))).
Proof.
  assert (H1 : recentSearches (stateWith "age") = recentSearches (stateWith "age"))
    by reflexivity.
  assert (H2 : NoDup (recentSearches (stateWith "age"))) by constructor.
  assert (H3 : List.length (recentSearches (stateWith "age")) <= 10) by (cbn; lia).
  split; [exact H1|split; [exact H2|split; [exact H3|]]].
  exact (proj1 (handleSearch_v1_history_ok oraclePartial (stateWith "age") (stateWith "age")
                  H1 H2 H3)).
Defined.

End V1SearchFacts.
